(** * pytermgui.parser: markup and ANSI tokenizers, and the converters between them

    A shallow embedding of [src/pytermgui/parser.py].  Python [str] values are
    modelled as lists of characters ([list ascii]: the code points below 256,
    with Python's Unicode predicates at those points); generators are modelled
    by the list of tokens they yield together with the exception, if any, that
    ends the iteration; exceptions are an explicit error type. *)

From Stdlib Require Import List Bool Arith Lia ZArith.
From Stdlib Require Import Strings.Ascii Strings.String.
From Stdlib Require Import Numbers.DecimalString Numbers.DecimalNat.
Import ListNotations.

(** Python [str]. *)
Definition str := list ascii.

(** A string literal. *)
Definition lit (s : string) : str := list_ascii_of_string s.

(** ** The Python built-ins the parser uses *)
Module Py.

Definition str_eqb (a b : str) : bool :=
  if list_eq_dec ascii_dec a b then true else false.

Definition opt_str_eqb (a b : option str) : bool :=
  match a, b with
  | None, None => true
  | Some x, Some y => str_eqb x y
  | _, _ => false
  end.

(** [s.startswith(p)] *)
Fixpoint startswith (s p : str) : bool :=
  match p, s with
  | [], _ => true
  | _ :: _, [] => false
  | c :: p', d :: s' => Ascii.eqb c d && startswith s' p'
  end.

(** [s.endswith(p)] *)
Definition endswith (s p : str) : bool := startswith (rev s) (rev p).

(** [s[a:b]] for [0 <= a] and [0 <= b]. *)
Definition slice (s : str) (a b : nat) : str := firstn (b - a) (skipn a s).

(** [s[a:]] *)
Definition slice_from (s : str) (a : nat) : str := skipn a s.

(** [s.count(c)] for a one-character [c]. *)
Definition count (s : str) (c : ascii) : nat :=
  List.length (filter (Ascii.eqb c) s).

(** [c in s] for a one-character [c]. *)
Definition char_in (c : ascii) (s : str) : bool := existsb (Ascii.eqb c) s.

Definition ascii_digit (c : ascii) : bool :=
  let n := nat_of_ascii c in (48 <=? n) && (n <=? 57).

(** [c.isdigit()]: the ASCII digits and, below 256, the superscripts
    U+00B2, U+00B3 and U+00B9. *)
Definition char_isdigit (c : ascii) : bool :=
  let n := nat_of_ascii c in
  ascii_digit c || (n =? 178) || (n =? 179) || (n =? 185).

(** [s.isdigit()]: false on the empty string. *)
Definition isdigit (s : str) : bool :=
  match s with
  | [] => false
  | _ => forallb char_isdigit s
  end.

(** [c.isspace()] below 256. *)
Definition char_isspace (c : ascii) : bool :=
  let n := nat_of_ascii c in
  ((9 <=? n) && (n <=? 13)) || ((28 <=? n) && (n <=? 32))
  || (n =? 133) || (n =? 160).

(** [s.split()]: the maximal runs of non-whitespace characters. *)
Fixpoint split_ws_from (s cur : str) : list str :=
  match s with
  | [] => match cur with [] => [] | _ => [cur] end
  | c :: s' =>
      if char_isspace c
      then match cur with
           | [] => split_ws_from s' []
           | _ => cur :: split_ws_from s' []
           end
      else split_ws_from s' (cur ++ [c])
  end.

Definition split_ws (s : str) : list str := split_ws_from s [].

(** [s.split(sep)] for a one-character [sep]. *)
Fixpoint split_from (sep : ascii) (s cur : str) : list str :=
  match s with
  | [] => [cur]
  | c :: s' =>
      if Ascii.eqb c sep
      then cur :: split_from sep s' []
      else split_from sep s' (cur ++ [c])
  end.

Definition split (s : str) (sep : ascii) : list str := split_from sep s [].

(** [sep.join(l)] *)
Fixpoint join (sep : str) (l : list str) : str :=
  match l with
  | [] => []
  | [x] => x
  | x :: rest => x ++ sep ++ join sep rest
  end.

(** [s.lstrip(c)] for a one-character [c]. *)
Fixpoint lstrip (s : str) (c : ascii) : str :=
  match s with
  | d :: s' => if Ascii.eqb d c then lstrip s' c else s
  | [] => []
  end.

(** [n * s] *)
Fixpoint repeat_str (n : nat) (s : str) : str :=
  match n with
  | O => []
  | S k => s ++ repeat_str k s
  end.

(** [str(n)] for a non-negative [int]. *)
Definition str_of_nat (n : nat) : str :=
  lit (NilEmpty.string_of_uint (Nat.to_uint n)).

(** The characters [int()] skips around the number: C whitespace, and the
    non-ASCII Unicode spaces (mapped to a blank before parsing). *)
Definition int_space (c : ascii) : bool :=
  let n := nat_of_ascii c in
  ((9 <=? n) && (n <=? 13)) || (n =? 32) || (n =? 133) || (n =? 160).

Fixpoint drop_while (f : ascii -> bool) (s : str) : str :=
  match s with
  | c :: s' => if f c then drop_while f s' else s
  | [] => []
  end.

(** Decimal digits with single underscores between them. *)
Fixpoint digits_value (s : str) (acc : Z) (after_digit : bool) : option Z :=
  match s with
  | [] => if after_digit then Some acc else None
  | c :: s' =>
      if ascii_digit c
      then digits_value s' (10 * acc + Z.of_nat (nat_of_ascii c - 48))%Z true
      else if Ascii.eqb c "_"%char
           then if after_digit then digits_value s' acc false else None
           else None
  end.

(** [int(s)] in base ten: blanks around the number, a sign, and decimal
    digits with single underscores between them; [None] stands for
    [ValueError].  (The limit that later Python versions put on the number of
    digits is not modelled.) *)
Definition int (s : str) : option Z :=
  let s := drop_while int_space s in
  let s := rev (drop_while int_space (rev s)) in
  match s with
  | c :: s' =>
      if Ascii.eqb c "-"%char
      then option_map Z.opp (digits_value s' 0%Z false)
      else if Ascii.eqb c "+"%char
           then digits_value s' 0%Z false
           else digits_value s 0%Z false
  | [] => None
  end.

(** [l[i]]: a negative index counts from the end; [None] stands for
    [IndexError]. *)
Definition index {A} (l : list A) (i : Z) : option A :=
  if (i <? 0)%Z
  then if (Z.of_nat (List.length l) + i <? 0)%Z then None
       else nth_error l (Z.to_nat (Z.of_nat (List.length l) + i))
  else nth_error l (Z.to_nat i).

(** [l.index(x)] *)
Fixpoint list_index (l : list str) (x : str) : option nat :=
  match l with
  | [] => None
  | y :: l' => if str_eqb y x then Some 0 else option_map S (list_index l' x)
  end.

(** [sub in s] *)
Fixpoint contains (s sub : str) : bool :=
  startswith s sub
  || match s with
     | [] => false
     | _ :: s' => contains s' sub
     end.

End Py.

(** ** The two regular expressions and [finditer] *)
Module Re.

Definition ESC : ascii := "027"%char.
Definition NL : ascii := "010"%char.

(** [.*?] followed by the one-character literal [stop]: the shortest run
    of characters other than a newline that ends just before [stop]. *)
Fixpoint lazy_until (stop : ascii) (s : str) : option str :=
  match s with
  | [] => None
  | c :: s' =>
      if Ascii.eqb c stop then Some []
      else if Ascii.eqb c NL then None
           else option_map (cons c) (lazy_until stop s')
  end.

(** [.*?] followed by the two-character literal [ESC \]. *)
Fixpoint lazy_until_st (s : str) : option str :=
  match s with
  | [] => None
  | c :: s' =>
      if Ascii.eqb c ESC && Py.startswith s' (lit "\") then Some []
      else if Ascii.eqb c NL then None
           else option_map (cons c) (lazy_until_st s')
  end.

(** [RE_ANSI = (?:\x1b\[(.*?)m)|(?:\x1b\](.*?)\x1b\\)] tried at the head
    of [s]: the two groups (an absent group is [None]) and the length of
    the match. *)
Definition RE_ANSI (s : str) : option ((option str * option str) * nat) :=
  match s with
  | c0 :: c1 :: s' =>
      if Ascii.eqb c0 ESC && Ascii.eqb c1 "["%char
      then match lazy_until "m"%char s' with
           | Some sgr => Some ((Some sgr, None), 2 + List.length sgr + 1)
           | None => None
           end
      else if Ascii.eqb c0 ESC && Ascii.eqb c1 "]"%char
           then match lazy_until_st s' with
                | Some osc => Some ((None, Some osc), 2 + List.length osc + 2)
                | None => None
                end
           else None
  | _ => None
  end.

(** The greedy run of backslashes at the head of [s]. *)
Fixpoint backslashes (s : str) : str :=
  match s with
  | c :: s' => if Ascii.eqb c "\"%char then c :: backslashes s' else []
  | [] => []
  end.

(** The class [[a-z0-9!#@\/]]. *)
Definition tag_first (c : ascii) : bool :=
  let n := nat_of_ascii c in
  ((97 <=? n) && (n <=? 122)) || ((48 <=? n) && (n <=? 57))
  || Py.char_in c (lit "!#@/").

(** [RE_TAGS], compiled with [re.VERBOSE] and written here with blanks,
    [( ( \\* ) \[ ( [a-z0-9!#@\/] .*? ) \] )], tried at the head of [s]:
    the three groups and the length of the match.  Giving back backslashes
    of the greedy run never helps: the next character would be a backslash
    where an opening bracket is required. *)
Definition RE_TAGS (s : str) : option ((str * str * str) * nat) :=
  let escapes := backslashes s in
  match skipn (List.length escapes) s with
  | c0 :: c1 :: s' =>
      if Ascii.eqb c0 "["%char && tag_first c1
      then match lazy_until "]"%char s' with
           | Some body =>
               let tag_text := c1 :: body in
               let len := List.length escapes + 1 + List.length tag_text + 1 in
               Some ((firstn len s, escapes, tag_text), len)
           | None => None
           end
      else None
  | _ => None
  end.

(** [re.finditer(text)]: the leftmost match at or after the current
    position, then the scan resumes at its end.  [text] is what is left of
    the string at [pos]; [skip] counts the characters of the last match
    still to pass.  (No match of these two expressions is empty.) *)
Fixpoint finditer_from {G} (re : str -> option (G * nat))
    (text : str) (pos skip : nat) : list (nat * nat * G) :=
  match text with
  | [] => []
  | _ :: text' =>
      match skip with
      | S k => finditer_from re text' (S pos) k
      | O =>
          match re text with
          | Some (g, len) =>
              (pos, pos + len, g) :: finditer_from re text' (S pos) (len - 1)
          | None => finditer_from re text' (S pos) 0
          end
      end
  end.

Definition finditer {G} (re : str -> option (G * nat)) (text : str)
  : list (nat * nat * G) :=
  finditer_from re text 0 0.

End Re.

(** ** Exceptions and generators *)

(** The two [SyntaxError] messages of the module, by what they name. *)
Inductive message :=
| TagNotRecognized (tag : str)
| InvalidAnsiCode (code : str).

(** The exceptions this module can end with.  [UnboundLocalError] names the
    local variable read before assignment, [KeyError] the missing key;
    [ExternalError] is whatever [foreground.translate_hex] raises. *)
Inductive exn :=
| SyntaxError (msg : message)
| UnboundLocalError (var : str)
| KeyError (key : str)
| IndexError
| ValueError
| AssertionError
| ExternalError.

(** The outcome of a call: a value, or a raised exception. *)
Inductive result (A : Type) :=
| Ok (a : A)
| Raise (e : exn).
Arguments Ok {A} a.
Arguments Raise {A} e.

Definition bind {A B} (r : result A) (k : A -> result B) : result B :=
  match r with
  | Ok a => k a
  | Raise e => Raise e
  end.

Notation "x <- r ;; k" := (bind r (fun x => k))
  (at level 61, r at next level, right associativity).

(** ** The data model *)

Inductive TokenAttribute := CLEAR | COLOR | STYLE | BACKGROUND_COLOR.

Record Token := mkToken {
  start : nat;
  end_ : nat;
  plain : option str;
  code : option str;
  attribute : option TokenAttribute }.

(** A generator run to exhaustion: the tokens it yields, in order, and the
    exception that ends the iteration, if one does. *)
Record run := mkRun {
  yielded : list Token;
  raised : option exn }.

(** The generator yields [ts], then goes on as [r]. *)
Definition yield (ts : list Token) (r : run) : run :=
  mkRun (ts ++ yielded r) (raised r).

Definition NAMES : list str :=
  map lit ["/"; "bold"; "dim"; "italic"; "underline"; "blink"; "blink2";
           "inverse"; "invisible"; "strikethrough"]%string.

Definition UNSET_MAP : list (str * str) :=
  map (fun kv => (lit (fst kv), lit (snd kv)))
    [("/bold", "22"); ("/dim", "22"); ("/italic", "23"); ("/underline", "24");
     ("/blink", "25"); ("/blink2", "26"); ("/inverse", "27");
     ("/invisible", "28"); ("/strikethrough", "29"); ("/fg", "39");
     ("/bg", "49")]%string.

(** [d[key]] and [key in d] on a dict kept as the list of its items. *)
Fixpoint dict_get {V} (d : list (str * V)) (key : str) : option V :=
  match d with
  | [] => None
  | (k, v) :: d' => if Py.str_eqb k key then Some v else dict_get d' key
  end.

Definition dict_mem {V} (d : list (str * V)) (key : str) : bool :=
  match dict_get d key with Some _ => true | None => false end.

(** The first key of [d], in the dict's order, whose value satisfies [p]:
    the [for key, value in d.items(): if value == x: return key] loops. *)
Fixpoint dict_key_of {V} (p : V -> bool) (d : list (str * V)) : option str :=
  match d with
  | [] => None
  | (k, v) :: d' => if p v then Some k else dict_key_of p d'
  end.

(** Modelled from the spec: [reset()] of [ansi_interface], which is not among
    the sources, "returns the canonical full-reset escape sequence
    ([ESC [ 0 m])". *)
Definition reset : str := Re.ESC :: lit "[0m".

(** The lower-case hex digit of [n < 16]. *)
Definition hex_char (n : nat) : ascii :=
  nth n (lit "0123456789abcdef") "0"%char.

(** The [unicode_escape] codec on one character below 256: the printable
    ASCII characters stand for themselves, but for the backslash, which is
    doubled; tab, newline and carriage return are written [\t], [\n] and
    [\r]; every other character is written [\xNN]. *)
Definition escape_char (c : ascii) : str :=
  let n := nat_of_ascii c in
  if (32 <=? n) && (n <? 127)
  then if Ascii.eqb c "\"%char then lit "\\" else [c]
  else if n =? 9 then lit "\t"
       else if n =? 10 then lit "\n"
            else if n =? 13 then lit "\r"
                 else "\"%char :: "x"%char
                        :: [hex_char (n / 16); hex_char (n mod 16)].

(** [escape_ansi]: [text.encode("unicode_escape").decode("utf-8")] *)
Definition escape_ansi (text : str) : str := flat_map escape_char text.

Section Parser.

(** [foreground.names] of [ansi_interface]: the named-color table, from a
    color name to its palette index, in the dict's order. *)
Variable names : list (str * nat).

(** [foreground.translate_hex] of [ansi_interface]: the three components
    of a hex color, or [None] when it raises. *)
Variable translate_hex : str -> option (nat * nat * nat).

Definition _handle_color (tag : str) : result (option (str * bool)) :=
  if negb (forallb (fun char => Py.char_isdigit char
                                || Py.char_in char (lit "#;@abcdef")) tag)
  then Ok None
  else
    let '(pretext, tag) :=
      if Py.startswith tag (lit "@")
      then (lit "48;", Py.slice_from tag 1)
      else (lit "38;", tag) in
    let hexcolor := Py.startswith tag (lit "#") in
    let color_pre :=
      if (Py.count tag ";"%char <? 2) && negb hexcolor
      then lit "5;" else lit "2;" in
    tag <- (if hexcolor
            then match translate_hex tag with
                 | Some (r, g, b) =>
                     Ok (Py.join (lit ";") (map Py.str_of_nat [r; g; b]))
                 | None => Raise ExternalError
                 end
            else Ok tag) ;;
    Ok (Some (pretext ++ color_pre ++ tag, Py.str_eqb pretext (lit "48;"))).

Definition _handle_named_color (tag : str) : result (option (str * bool)) :=
  if negb (dict_mem names (Py.lstrip tag "@"%char))
  then Ok None
  else
    let '(tag, background) :=
      if Py.startswith tag (lit "@")
      then (Py.slice_from tag 1, lit "@")
      else (tag, []) in
    match dict_get names tag with
    | Some value => _handle_color (background ++ Py.str_of_nat value)
    | None => Raise (KeyError tag)
    end.

(** [Token.to_name] *)
Definition to_name (self : Token) : result str :=
  match plain self with
  | Some text => Ok text
  | None =>
      match code self with
      | None => Raise AssertionError
      | Some code =>
          if Py.isdigit code
          then
            match dict_key_of (Py.str_eqb code) UNSET_MAP with
            | Some key => Ok key
            | None =>
                match Py.int code with
                | None => Raise ValueError
                | Some index =>
                    match Py.index NAMES index with
                    | Some name => Ok name
                    | None => Raise IndexError
                    end
                end
            end
          else
            let out : str := [] in
            let numbers := Py.split code ";"%char in
            let out :=
              if Py.str_eqb (nth 0 numbers []) (lit "48")
              then out ++ lit "@" else out in
            if List.length numbers <? 3
            then Raise (SyntaxError (InvalidAnsiCode code))
            else
              match Py.int (nth 2 numbers []) with
              | None => Raise ValueError
              | Some simple =>
                  match dict_key_of (fun v => Z.eqb (Z.of_nat v) simple)
                          names with
                  | Some name => Ok (out ++ name)
                  | None => Ok (out ++ Py.join (lit ";") (skipn 2 numbers))
                  end
              end
      end
  end.

(** [Token.to_sequence] *)
Definition to_sequence (self : Token) : result str :=
  match code self with
  | None =>
      match plain self with
      | Some text => Ok text
      | None => Raise AssertionError
      end
  | Some code => Ok (Re.ESC :: lit "[" ++ code ++ lit "m")
  end.

(** The body of [tokenize_ansi]'s loop over the matches. *)
Fixpoint tokenize_ansi_loop (text : str)
    (matches : list (nat * nat * (option str * option str)))
    (position start end_ : nat) (previous : option Token) : list Token :=
  match matches with
  | [] =>
      if position <? List.length text
      then [mkToken start end_ (Some (Py.slice_from text position)) None None]
      else []
  | (start, end_, (sgr, _)) :: matches' =>
      let '(before, previous) :=
        if position <? start
        then let token :=
               mkToken start end_ (Some (Py.slice text position start))
                 None None in
             ([token], Some token)
        else ([], previous) in
      let token := mkToken start end_ None sgr None in
      let fresh :=
        match previous with
        | None => true
        | Some previous => negb (Py.opt_str_eqb (code previous) sgr)
        end in
      let '(emitted, previous) :=
        if fresh then ([token], Some token) else ([], previous) in
      before ++ emitted
        ++ tokenize_ansi_loop text matches' end_ start end_ previous
  end.

Definition tokenize_ansi (text : str) : list Token :=
  let text :=
    if negb (Py.endswith text reset) then text ++ Re.ESC :: lit "[0m"
    else text in
  tokenize_ansi_loop text (Re.finditer Re.RE_ANSI text) 0 0 0 None.

(** One turn of [for tag in tag_text.split()]: the token of [tag]. *)
Definition tag_token (start end_ : nat) (tag : str) : result Token :=
  match Py.list_index NAMES tag with
  | Some index =>
      Ok (mkToken start end_ None (Some (Py.str_of_nat index))
            (Some (if Py.str_eqb tag (lit "/") then CLEAR else STYLE)))
  | None =>
      match dict_get UNSET_MAP tag with
      | Some unset => Ok (mkToken start end_ None (Some unset) (Some CLEAR))
      | None =>
          data <- _handle_named_color tag ;;
          match data with
          | Some (code, background) =>
              Ok (mkToken start end_ None (Some code)
                    (Some (if background then BACKGROUND_COLOR else COLOR)))
          | None =>
              data <- _handle_color tag ;;
              match data with
              | Some (color, background) =>
                  Ok (mkToken start end_ None (Some color)
                        (Some (if background then BACKGROUND_COLOR
                               else COLOR)))
              | None => Raise (SyntaxError (TagNotRecognized tag))
              end
          end
      end
  end.

Fixpoint tags_loop (start end_ : nat) (tags : list str) : run :=
  match tags with
  | [] => mkRun [] None
  | tag :: tags' =>
      match tag_token start end_ tag with
      | Ok token => yield [token] (tags_loop start end_ tags')
      | Raise e => mkRun [] (Some e)
      end
  end.

(** The body of [tokenize_markup]'s loop over the matches.  [span] is the
    current binding of the locals [start] and [end], which the function
    does not initialise: [None] until the first match binds them. *)
Fixpoint tokenize_markup_loop (text : str)
    (matches : list (nat * nat * (str * str * str)))
    (position : nat) (span : option (nat * nat)) : run :=
  match matches with
  | [] =>
      if position <? List.length text
      then match span with
           | Some (start, end_) =>
               mkRun [mkToken start end_
                        (Some (Py.slice_from text position)) None None] None
           | None => mkRun [] (Some (UnboundLocalError (lit "start")))
           end
      else mkRun [] None
  | (start, end_, (_, escapes, tag_text)) :: matches' =>
      let before :=
        if position <? start
        then [mkToken start end_ (Some (Py.slice text position start))
                None None]
        else [] in
      let backslashes := List.length escapes / 2 in
      let escaped := List.length escapes mod 2 in
      let '(halved, start) :=
        if 0 <? backslashes
        then ([mkToken start end_
                 (Some (Py.repeat_str backslashes (lit "\"))) None None],
              start + backslashes * 2)
        else ([], start) in
      if 0 <? escaped
      then
        yield (before ++ halved
               ++ [mkToken start end_
                     (Some (Py.slice_from tag_text (List.length escapes)))
                     None None])
          (tokenize_markup_loop text matches' end_ (Some (start, end_)))
      else
        yield (before ++ halved)
          (let tags := tags_loop start end_ (Py.split_ws tag_text) in
           match raised tags with
           | Some _ => tags
           | None =>
               yield (yielded tags)
                 (tokenize_markup_loop text matches' end_
                    (Some (start, end_)))
           end)
  end.

Definition tokenize_markup (text : str) : run :=
  tokenize_markup_loop text (Re.finditer Re.RE_TAGS text) 0 None.

(** [for token in ...: ansi += token.to_sequence()] *)
Fixpoint to_sequence_loop (tokens : list Token) (ansi : str) : result str :=
  match tokens with
  | [] => Ok ansi
  | token :: tokens' =>
      sequence <- to_sequence token ;;
      to_sequence_loop tokens' (ansi ++ sequence)
  end.

(** [if not ansi.endswith(reset()): ansi += reset()] *)
Definition terminate (ansi : str) : str :=
  if negb (Py.endswith ansi reset) then ansi ++ reset else ansi.

Definition markup_to_ansi (markup : str) : result str :=
  let tokens := tokenize_markup markup in
  ansi <- to_sequence_loop (yielded tokens) [] ;;
  match raised tokens with
  | Some e => Raise e
  | None => Ok (terminate ansi)
  end.

(** The body of [ansi_to_markup]'s loop over the tokens. *)
Fixpoint ansi_to_markup_loop (tokens : list Token) (markup : str)
    (in_attr : bool) (current_bracket : list str) : result str :=
  match tokens with
  | [] =>
      Ok (markup ++ lit "[" ++ Py.join (lit " ") current_bracket ++ lit "]")
  | token :: tokens' =>
      match code token with
      | Some _ =>
          name <- to_name token ;;
          ansi_to_markup_loop tokens' markup true (current_bracket ++ [name])
      | None =>
          let '(markup, current_bracket) :=
            if in_attr
            then (markup ++ lit "["
                    ++ Py.join (lit " ") current_bracket ++ lit "]", [])
            else (markup, current_bracket) in
          name <- to_name token ;;
          ansi_to_markup_loop tokens' (markup ++ name) in_attr
            current_bracket
      end
  end.

Definition ansi_to_markup (ansi : str) : result str :=
  ansi_to_markup_loop (tokenize_ansi ansi) [] false [].

End Parser.

(** ** The collaborators of [ansi_interface], for closed examples *)

(** Modelled from the spec: the named-color table [foreground.names] of
    [ansi_interface], which is not among the sources ("mapping from color
    name to an 8-bit palette index, supplied externally"); its entries here
    are the eight color names and color codes that the docstring of
    [parser.py] lists. *)
Definition docstring_names : list (str * nat) :=
  map (fun kv => (lit (fst kv), snd kv))
    [("black", 0); ("red", 1); ("green", 2); ("yellow", 3); ("blue", 4);
     ("magenta", 5); ("cyan", 6); ("white", 7)]%string.

Definition hex_digit (c : ascii) : option nat :=
  let n := nat_of_ascii c in
  if (48 <=? n) && (n <=? 57) then Some (n - 48)
  else if (97 <=? n) && (n <=? 102) then Some (n - 87)
  else if (65 <=? n) && (n <=? 70) then Some (n - 55)
  else None.

Definition hex_pair (hi lo : ascii) : option nat :=
  match hex_digit hi, hex_digit lo with
  | Some h, Some l => Some (16 * h + l)
  | _, _ => None
  end.

(** Modelled from the spec: [foreground.translate_hex] of [ansi_interface],
    which is not among the sources ("hex-to-RGB conversion",
    [translate_hex(hex_string) -> (r,g,b)]): a [#] and six hex digits give
    the three components; on anything else the conversion raises. *)
Definition spec_translate_hex (color : str) : option (nat * nat * nat) :=
  match color with
  | [h; r1; r0; g1; g0; b1; b0] =>
      if Ascii.eqb h "#"%char
      then match hex_pair r1 r0, hex_pair g1 g0, hex_pair b1 b0 with
           | Some r, Some g, Some b => Some (r, g, b)
           | _, _, _ => None
           end
      else None
  | _ => None
  end.

(** ** The vocabulary of the properties *)

(** What a token carries, without its span and attribute. *)
Definition content (t : Token) : option str * option str := (plain t, code t).

Definition plain_text (s : string) : option str * option str :=
  (Some (lit s), None).

Definition sgr_code (s : string) : option str * option str :=
  (None, Some (lit s)).

(** The invariant of [Token]: exactly one of [plain] and [code] is present. *)
Definition exactly_one (t : Token) : Prop :=
  (plain t <> None /\ code t = None) \/ (plain t = None /\ code t <> None).

(** No token that comes from a matched sequence repeats the code of the
    token yielded just before it; [previous] is the token yielded last. *)
Fixpoint no_repeat (previous : option Token) (tokens : list Token) : Prop :=
  match tokens with
  | [] => True
  | t :: tokens' =>
      (plain t = None ->
       match previous with
       | Some p => code p <> code t
       | None => True
       end)
      /\ no_repeat (Some t) tokens'
  end.

(** A token built from a matched [ESC [ sgr m]. *)
Definition code_token (t : Token) : Prop := plain t = None /\ code t <> None.

(** The bracket group [[name1 name2 ...]]. *)
Definition group (names : list str) : str :=
  lit "[" ++ Py.join (lit " ") names ++ lit "]".

(** The matches of [re] lie in [text] at or after [lo], one after the other,
    and each is a match of [re] where it starts. *)
Fixpoint matches_in {G} (re : str -> option (G * nat)) (text : str) (lo : nat)
    (matches : list (nat * nat * G)) : Prop :=
  match matches with
  | [] => True
  | (start, end_, g) :: matches' =>
      lo <= start
      /\ start < end_ <= List.length text
      /\ re (skipn start text) = Some (g, end_ - start)
      /\ matches_in re text end_ matches'
  end.

Definition backslash : ascii := "\"%char.

(** A bracket group, up to its first closing bracket. *)
Definition bracket_group (s : str) : Prop :=
  exists body, s = lit "[" ++ body ++ lit "]" /\ ~ In "]"%char body.

(** A bracket group after a run of backslashes. *)
Definition escaped_group (s : str) : Prop :=
  exists escapes g,
    s = escapes ++ g /\ Forall (eq backslash) escapes /\ bracket_group g.

Definition span_of_group (text : str) (s e : nat) : Prop :=
  s < e <= List.length text /\ escaped_group (Py.slice text s e).

(** The span of [t] lies in [text] and is that of a bracket group, with the
    backslashes before it for a plain token, without them for a tag token. *)
Definition group_span (text : str) (t : Token) : Prop :=
  span_of_group text (start t) (end_ t)
  /\ (code t <> None -> bracket_group (Py.slice text (start t) (end_ t))).

(** [t1] and [t2] carry the span of one group (the start may have moved past
    halved backslashes), or [t1]'s group ends before [t2]'s starts. *)
Definition follows (t1 t2 : Token) : Prop :=
  (end_ t1 = end_ t2 /\ start t1 <= start t2) \/ end_ t1 <= start t2.

(** The token [t] covers the position [i] of the text. *)
Definition covers (t : Token) (i : nat) : Prop := start t <= i < end_ t.

(** The spans partition the text: every position is covered by exactly one
    plain token, or lies inside the one span that tag tokens carry there. *)
Definition spans_partition (text : str) (tokens : list Token) : Prop :=
  forall i,
    i < List.length text ->
    (exists t,
        In t tokens /\ plain t <> None /\ covers t i
        /\ forall t', In t' tokens -> plain t' <> None -> covers t' i -> t' = t)
    \/ (exists t,
           In t tokens /\ code t <> None /\ covers t i
           /\ forall t',
               In t' tokens -> code t' <> None -> covers t' i ->
               (start t', end_ t') = (start t, end_ t)).

(** The positions [lo] to [hi] of [text] hold a bracket group that is not
    escaped, with [tag_text] between its brackets: a match of [RE_TAGS] that
    [finditer] finds, after an even number of backslashes, which are halved
    and left out of the span. *)
Definition tag_group (text : str) (lo hi : nat) (tag_text : str) : Prop :=
  exists st whole escapes,
    In (st, hi, (whole, escapes, tag_text)) (Re.finditer Re.RE_TAGS text)
    /\ List.length escapes mod 2 = 0
    /\ lo = st + List.length escapes.

(** The position [i] lies in a bracket group of [text] that is not
    escaped. *)
Definition in_tag_group (text : str) (i : nat) : Prop :=
  exists lo hi tag_text, tag_group text lo hi tag_text /\ lo <= i < hi.

(** The position [i] lies inside exactly one tag token's span: a tag token
    covers it, and every tag token that covers it carries the same span. *)
Definition in_one_tag_span (tokens : list Token) (i : nat) : Prop :=
  exists t,
    In t tokens /\ code t <> None /\ covers t i
    /\ forall t',
        In t' tokens -> code t' <> None -> covers t' i ->
        (start t', end_ t') = (start t, end_ t).

(** [ansi_to_markup(markup_to_ansi(m))] *)
Definition round_trip (names : list (str * nat))
    (translate_hex : str -> option (nat * nat * nat)) (m : str) : result str :=
  ansi <- markup_to_ansi names translate_hex m ;;
  ansi_to_markup names ansi.

(** What a markup string resolves to: its plain text and codes, in order. *)
Definition resolved (names : list (str * nat))
    (translate_hex : str -> option (nat * nat * nat)) (m : str)
  : list (option str * option str) :=
  map content (yielded (tokenize_markup names translate_hex m)).

(** What [to_sequence] returns for a token that carries a code or plain
    text. *)
Definition sequence (t : Token) : str :=
  match code t with
  | Some c => Re.ESC :: lit "[" ++ c ++ lit "m"
  | None => match plain t with Some text => text | None => [] end
  end.

(** The text that [tokenize_ansi] scans: the input, with the reset sequence
    appended unless it ends with it. *)
Definition with_reset (text : str) : str :=
  if negb (Py.endswith text reset) then text ++ Re.ESC :: lit "[0m" else text.

(** A printable ASCII character. *)
Definition printable (c : ascii) : Prop :=
  32 <= nat_of_ascii c < 127.

Definition hex_value (c : ascii) : nat :=
  let n := nat_of_ascii c in
  if n <=? 57 then n - 48 else n - 87.

(** Reads back the first character of an escaped text: the inverse of
    [escape_char], used to show that [escape_ansi] loses nothing. *)
Definition unescape_head (s : str) : option (ascii * str) :=
  match s with
  | [] => None
  | c :: r =>
      if negb (Ascii.eqb c "\"%char) then Some (c, r)
      else match r with
           | [] => None
           | e :: r' =>
               if Ascii.eqb e "\"%char then Some ("\"%char, r')
               else if Ascii.eqb e "t"%char then Some ("009"%char, r')
               else if Ascii.eqb e "n"%char then Some ("010"%char, r')
               else if Ascii.eqb e "r"%char then Some ("013"%char, r')
               else match r' with
                    | h :: l :: r'' =>
                        Some (ascii_of_nat (16 * hex_value h + hex_value l),
                              r'')
                    | _ => None
                    end
           end
  end.

(** The exceptions that resolving a tag can raise: that of the hex
    conversion, [KeyError], and [SyntaxError] for an unrecognized tag. *)
Definition tag_error (e : exn) : Prop :=
  e = ExternalError
  \/ (exists key, e = KeyError key)
  \/ (exists tag, e = SyntaxError (TagNotRecognized tag)).

(** The name that [to_name] gives to the palette index [n]: the first color
    of the table, in its order, that has this index. *)
Definition name_of_index (names : list (str * nat)) (n : nat) : option str :=
  dict_key_of (fun v => Z.eqb (Z.of_nat v) (Z.of_nat n)) names.

(** The characters that pass the test of [_handle_color]: the digits, [#],
    [;], [@] and the letters [a] to [f]. *)
Definition color_char (c : ascii) : bool :=
  Py.char_isdigit c || Py.char_in c (lit "#;@abcdef").

(** *** Empty input *)

(** C10: on the empty string [markup_to_ansi] returns exactly the reset
    sequence [ESC [ 0 m], and [ansi_to_markup] returns exactly ["[/]"]: the
    reset that [tokenize_ansi] appends becomes one clear-all group. *)
Theorem empty_input_conversions :
  forall names translate_hex,
    markup_to_ansi names translate_hex [] = Ok (Re.ESC :: lit "[0m")
    /\ ansi_to_markup names [] = Ok (lit "[/]").
Proof.
  intros names translate_hex; split; reflexivity.
Qed.

(** *** The color resolver *)

(** C6: [_handle_color] resolves ["141"] to ["38;5;141"] (foreground),
    ["@141"] to ["48;5;141"] (background) and ["60;100;200"] to
    ["38;2;60;100;200"] (foreground); for every tag it resolves, the selector
    after the ["38;"] or ["48;"] is ["5;"] when the tag, without its [@], has
    fewer than two [;] and does not start with [#], and ["2;"] otherwise. *)
Theorem handle_color_payload :
  forall translate_hex,
    _handle_color translate_hex (lit "141")
      = Ok (Some (lit "38;5;141", false))
    /\ _handle_color translate_hex (lit "@141")
      = Ok (Some (lit "48;5;141", true))
    /\ _handle_color translate_hex (lit "60;100;200")
      = Ok (Some (lit "38;2;60;100;200", false))
    /\ forall tag payload background,
        _handle_color translate_hex tag = Ok (Some (payload, background)) ->
        let body :=
          if Py.startswith tag (lit "@") then Py.slice_from tag 1 else tag in
        let eight_bit :=
          (Py.count body ";"%char <? 2)
          && negb (Py.startswith body (lit "#")) in
        background = Py.startswith tag (lit "@")
        /\ exists fields,
            payload = (if background then lit "48;" else lit "38;")
                        ++ (if eight_bit then lit "5;" else lit "2;")
                        ++ fields
            /\ (Py.startswith body (lit "#") = false -> fields = body).
Proof.
  intros translate_hex.
  split; [reflexivity|]. split; [reflexivity|]. split; [reflexivity|].
  intros tag payload background H.
  unfold _handle_color in H.
  destruct (negb (forallb _ tag)); [discriminate|].
  destruct (Py.startswith tag (lit "@")); cbv beta iota zeta in H |- *.
  - destruct (Py.startswith (Py.slice_from tag 1) (lit "#")) eqn:Hhex.
    + destruct (translate_hex (Py.slice_from tag 1)) as [[[r g] b]|];
        [|discriminate].
      unfold bind in H. inversion H; subst. split; [reflexivity|].
      eexists. split; [reflexivity|discriminate].
    + unfold bind in H. inversion H; subst. split; [reflexivity|].
      eexists. split; [reflexivity|reflexivity].
  - destruct (Py.startswith tag (lit "#")) eqn:Hhex.
    + destruct (translate_hex tag) as [[[r g] b]|]; [|discriminate].
      unfold bind in H. inversion H; subst. split; [reflexivity|].
      eexists. split; [reflexivity|discriminate].
    + unfold bind in H. inversion H; subst. split; [reflexivity|].
      eexists. split; [reflexivity|reflexivity].
Qed.

(** [handle_color_payload] at the tag ["@60;100;200"]. *)
Lemma handle_color_payload_witness :
  _handle_color spec_translate_hex (lit "@60;100;200")
    = Ok (Some (lit "48;2;60;100;200", true))
  /\ true = Py.startswith (lit "@60;100;200") (lit "@")
  /\ exists fields,
      lit "48;2;60;100;200" = lit "48;" ++ lit "2;" ++ fields
      /\ (Py.startswith (lit "60;100;200") (lit "#") = false ->
          fields = lit "60;100;200").
Proof.
  split; [reflexivity|].
  exact (proj2 (proj2 (proj2 (handle_color_payload spec_translate_hex)))
           (lit "@60;100;200") (lit "48;2;60;100;200") true eq_refl).
Defined.

(** *** Escaped bracket groups *)

(** C4, as stated, fails: on two backslashes followed by ["[bold]hi"] no
    plain token contains ["[bold]"]. *)
Lemma escaped_pair_counterexample :
  ~ exists t text,
      In t (yielded (tokenize_markup docstring_names spec_translate_hex
                       (lit "\\[bold]hi")))
      /\ plain t = Some text
      /\ Py.contains text (lit "[bold]") = true.
Proof.
  intros [t [text [Hin [Hplain Hsub]]]].
  vm_compute in Hin.
  repeat (destruct Hin as [<- | Hin];
          [ simpl in Hplain; try discriminate;
            injection Hplain as <-; vm_compute in Hsub; discriminate | ]).
  exact Hin.
Qed.

(** C4, amended: two backslashes before ["[bold]hi"] collapse to one literal
    backslash and the group that follows is read as the tag [bold]; after
    one backslash the group is not read as a tag: no code token is yielded,
    and the text ["hi"] follows as the last plain token. *)
Theorem escaped_bracket_tokens :
  forall names translate_hex,
    let two := tokenize_markup names translate_hex (lit "\\[bold]hi") in
    let one := tokenize_markup names translate_hex (lit "\[bold]hi") in
    map content (yielded two) = [plain_text "\"; sgr_code "1"; plain_text "hi"]
    /\ raised two = None
    /\ Forall (fun t => code t = None /\ plain t <> None) (yielded one)
    /\ (exists before,
          map content (yielded one) = before ++ [plain_text "hi"])
    /\ raised one = None.
Proof.
  intros names translate_hex two one.
  split; [reflexivity|]. split; [reflexivity|].
  split; [|split; [|reflexivity]].
  - vm_compute. repeat constructor; discriminate.
  - vm_compute. eexists [_]. reflexivity.
Qed.

(** *** The ANSI tokenizer drops adjacent duplicates *)

Lemma opt_str_eqb_eq :
  forall a b, Py.opt_str_eqb a b = true <-> a = b.
Proof.
  intros [a|] [b|]; simpl; unfold Py.str_eqb;
    try destruct (list_eq_dec ascii_dec a b);
    split; intros H; try discriminate; try congruence; auto.
Qed.

Lemma tokenize_ansi_loop_no_repeat :
  forall text matches position start end_ previous,
    no_repeat previous
      (tokenize_ansi_loop text matches position start end_ previous).
Proof.
  intros text matches.
  induction matches as [|[[start' end'] [sgr osc]] matches IH];
    intros position start end_ previous; simpl.
  - destruct (position <? List.length text); simpl; auto.
    split; [discriminate|exact I].
  - destruct (position <? start'); simpl.
    + destruct sgr as [sgr|]; simpl.
      * split; [discriminate|]. split; [discriminate|apply IH].
      * split; [discriminate|apply IH].
    + destruct previous as [p|]; simpl.
      * destruct (Py.opt_str_eqb (code p) sgr) eqn:Heq; simpl.
        -- apply IH.
        -- split; [|apply IH].
           intros _ Hc. apply (proj2 (opt_str_eqb_eq (code p) sgr)) in Hc.
           congruence.
      * split; [auto|apply IH].
Qed.

Lemma no_repeat_adjacent :
  forall before previous t1 t2 after,
    no_repeat previous (before ++ t1 :: t2 :: after) ->
    plain t2 = None -> code t1 <> code t2.
Proof.
  induction before as [|t before IH]; intros previous t1 t2 after H Hp.
  - simpl in H. destruct H as [_ [H _]]. exact (H Hp).
  - simpl in H. destruct H as [_ H]. exact (IH _ _ _ _ H Hp).
Qed.

(** C5, as stated, fails: the tokens of [ESC[1m ESC[1m hello] are not just
    one code token and one plain token. *)
Lemma duplicate_collapse_counterexample :
  map content
    (tokenize_ansi (Re.ESC :: lit "[1m" ++ Re.ESC :: lit "[1mhello"))
  <> [sgr_code "1"; plain_text "hello"].
Proof.
  vm_compute. discriminate.
Qed.

(** C5, amended: [tokenize_ansi] on [ESC[1m ESC[1m hello] yields one code
    token ["1"], not two, then the plain token ["hello"], and then the code
    token ["0"] of the reset it appends to the text; in general a matched
    sequence is yielded only if its parameter string differs from the code
    of the token yielded just before it. *)
Theorem duplicate_collapse :
  map content
    (tokenize_ansi (Re.ESC :: lit "[1m" ++ Re.ESC :: lit "[1mhello"))
  = [sgr_code "1"; plain_text "hello"; sgr_code "0"]
  /\ forall text before t1 t2 after,
      tokenize_ansi text = before ++ t1 :: t2 :: after ->
      plain t2 = None ->
      code t1 <> code t2.
Proof.
  split; [reflexivity|].
  intros text before t1 t2 after H Hp.
  unfold tokenize_ansi in H.
  eapply no_repeat_adjacent; [|exact Hp].
  rewrite <- H. apply tokenize_ansi_loop_no_repeat.
Qed.

(** [duplicate_collapse] at [ESC[1m ESC[2m]: the codes ["1"] and ["2"] are
    adjacent in the output and differ. *)
Lemma duplicate_collapse_witness :
  let t1 := mkToken 0 4 None (Some (lit "1")) None in
  let t2 := mkToken 4 8 None (Some (lit "2")) None in
  let t3 := mkToken 8 12 None (Some (lit "0")) None in
  tokenize_ansi (Re.ESC :: lit "[1m" ++ Re.ESC :: lit "[2m")
    = [] ++ t1 :: t2 :: [t3]
  /\ code t1 <> code t2.
Proof.
  intros t1 t2 t3.
  split; [reflexivity|].
  apply (proj2 duplicate_collapse
           (Re.ESC :: lit "[1m" ++ Re.ESC :: lit "[2m") [] t1 t2 [t3]);
    reflexivity.
Defined.

(** *** A token carries plain text or a code *)

Lemma tag_token_exactly_one :
  forall names translate_hex start end_ tag t,
    tag_token names translate_hex start end_ tag = Ok t -> exactly_one t.
Proof.
  intros names translate_hex start end_ tag t H.
  unfold tag_token in H.
  destruct (Py.list_index NAMES tag).
  { inversion H; right; split; [reflexivity|discriminate]. }
  destruct (dict_get UNSET_MAP tag).
  { inversion H; right; split; [reflexivity|discriminate]. }
  destruct (_handle_named_color names translate_hex tag) as [[[c b]|]|];
    simpl in H; try discriminate.
  { inversion H; right; split; [reflexivity|discriminate]. }
  destruct (_handle_color translate_hex tag) as [[[c b]|]|];
    simpl in H; try discriminate.
  inversion H; right; split; [reflexivity|discriminate].
Qed.

Lemma tags_loop_exactly_one :
  forall names translate_hex start end_ tags,
    Forall exactly_one (yielded (tags_loop names translate_hex start end_ tags)).
Proof.
  intros names translate_hex start end_ tags.
  induction tags as [|tag tags IH]; simpl.
  - constructor.
  - destruct (tag_token names translate_hex start end_ tag) eqn:Htag; simpl.
    + constructor; [|exact IH].
      eapply tag_token_exactly_one; eassumption.
    + constructor.
Qed.

Lemma plain_token_exactly_one :
  forall start end_ text, exactly_one (mkToken start end_ (Some text) None None).
Proof.
  intros; left; split; [discriminate|reflexivity].
Qed.

Create HintDb tokens.
#[local] Hint Resolve plain_token_exactly_one tags_loop_exactly_one : tokens.

Lemma tokenize_markup_loop_exactly_one :
  forall names translate_hex text matches position span,
    Forall exactly_one
      (yielded (tokenize_markup_loop names translate_hex text matches
                  position span)).
Proof.
  intros names translate_hex text matches.
  induction matches as [|[[start end_] [[whole escapes] tag_text]] matches IH];
    intros position span; cbn [tokenize_markup_loop].
  - destruct (position <? List.length text); [|constructor].
    destruct span as [[s e]|]; simpl; auto with tokens.
  - destruct (position <? start);
      destruct (0 <? List.length escapes / 2);
      destruct (0 <? List.length escapes mod 2);
      unfold yield; cbn [yielded];
      repeat match goal with
        | |- context [raised ?r] => destruct (raised r); cbn [yielded]
        end;
      repeat (apply Forall_app; split);
      repeat (apply Forall_cons); auto with tokens.
Qed.

(** Every token that [tokenize_markup] yields, on every input, keeps the
    invariant. *)
Lemma tokenize_markup_exactly_one :
  forall names translate_hex text t,
    In t (yielded (tokenize_markup names translate_hex text)) ->
    exactly_one t.
Proof.
  intros names translate_hex text t Hin.
  pose proof (tokenize_markup_loop_exactly_one names translate_hex text
                (Re.finditer Re.RE_TAGS text) 0 None) as H.
  rewrite Forall_forall in H. apply H. exact Hin.
Qed.

(** C2: the invariant is broken by [tokenize_ansi] on an operating-system
    command [ESC ] 0;t ESC \]: the first group of [RE_ANSI] is absent from
    such a match, and the token built from it has neither plain text nor a
    code, so that [to_name] fails its own assertion. *)
Theorem osc_token_carries_nothing :
  forall names,
    let ansi := Re.ESC :: lit "]0;t" ++ Re.ESC :: lit "\" in
    (exists t, In t (tokenize_ansi ansi) /\ plain t = None /\ code t = None)
    /\ ansi_to_markup names ansi = Raise AssertionError.
Proof.
  intros names ansi. split; [|reflexivity].
  exists (mkToken 0 7 None None None).
  split; [left; reflexivity|split; reflexivity].
Qed.

(** *** Termination by the reset sequence *)

Lemma startswith_app :
  forall p s, Py.startswith (p ++ s) p = true.
Proof.
  induction p as [|c p IH]; intros s; simpl.
  - destruct s; reflexivity.
  - rewrite Ascii.eqb_refl. apply IH.
Qed.

Lemma startswith_prefix :
  forall p s, Py.startswith s p = true -> exists rest, s = p ++ rest.
Proof.
  induction p as [|c p IH]; intros s H.
  - exists s. reflexivity.
  - destruct s as [|d s]; simpl in H; [discriminate|].
    apply andb_prop in H. destruct H as [Hc Hs].
    apply Ascii.eqb_eq in Hc. subst d.
    destruct (IH s Hs) as [rest ->]. exists rest. reflexivity.
Qed.

Lemma endswith_app :
  forall s p, Py.endswith (s ++ p) p = true.
Proof.
  intros s p. unfold Py.endswith. rewrite rev_app_distr. apply startswith_app.
Qed.

Lemma endswith_suffix :
  forall s p, Py.endswith s p = true -> exists body, s = body ++ p.
Proof.
  intros s p H. unfold Py.endswith in H.
  destruct (startswith_prefix _ _ H) as [rest Hrest].
  exists (rev rest).
  rewrite <- (rev_involutive s), Hrest, rev_app_distr, rev_involutive.
  reflexivity.
Qed.

Lemma terminate_endswith :
  forall ansi, Py.endswith (terminate ansi) reset = true.
Proof.
  intros ansi. unfold terminate.
  destruct (Py.endswith ansi reset) eqn:H; simpl.
  - exact H.
  - apply endswith_app.
Qed.

(** C8: for every markup string [m] that is accepted, [markup_to_ansi m]
    ends with the reset sequence [ESC [ 0 m], and the termination step
    (append the reset unless the string already ends with it) leaves that
    result unchanged. *)
Theorem markup_to_ansi_terminated :
  forall names translate_hex m ansi,
    markup_to_ansi names translate_hex m = Ok ansi ->
    (exists body, ansi = body ++ Re.ESC :: lit "[0m")
    /\ Py.endswith ansi reset = true
    /\ terminate ansi = ansi.
Proof.
  intros names translate_hex m ansi H.
  unfold markup_to_ansi in H.
  destruct (to_sequence_loop _ _) as [raw|e]; simpl in H; [|discriminate].
  destruct (raised _); [discriminate|].
  injection H as <-.
  pose proof (terminate_endswith raw) as Hend.
  split; [exact (endswith_suffix _ _ Hend)|].
  split; [exact Hend|].
  unfold terminate at 1. rewrite Hend. reflexivity.
Qed.

(** [markup_to_ansi_terminated] at the markup ["[bold]hi"]. *)
Lemma markup_to_ansi_terminated_witness :
  let ansi := Re.ESC :: lit "[1mhi" ++ Re.ESC :: lit "[0m" in
  markup_to_ansi docstring_names spec_translate_hex (lit "[bold]hi") = Ok ansi
  /\ (exists body, ansi = body ++ Re.ESC :: lit "[0m")
  /\ Py.endswith ansi reset = true
  /\ terminate ansi = ansi.
Proof.
  intros ansi.
  split; [reflexivity|].
  apply (markup_to_ansi_terminated docstring_names spec_translate_hex
           (lit "[bold]hi")).
  reflexivity.
Defined.

(** *** What the regular expressions match *)

Lemma lazy_until_app :
  forall stop s body,
    Re.lazy_until stop s = Some body ->
    exists rest, s = body ++ stop :: rest.
Proof.
  intros stop s. induction s as [|c s IH]; intros body H; simpl in H.
  - discriminate.
  - destruct (Ascii.eqb c stop) eqn:Hc.
    + apply Ascii.eqb_eq in Hc. subst c. injection H as <-.
      exists s. reflexivity.
    + destruct (Ascii.eqb c Re.NL); [discriminate|].
      destruct (Re.lazy_until stop s) as [body'|]; [|discriminate].
      injection H as <-. destruct (IH body' eq_refl) as [rest ->].
      exists rest. reflexivity.
Qed.

Lemma lazy_until_st_app :
  forall s body,
    Re.lazy_until_st s = Some body ->
    exists rest, s = body ++ Re.ESC :: "\"%char :: rest.
Proof.
  intros s. induction s as [|c s IH]; intros body H;
    cbn [Re.lazy_until_st] in H.
  - discriminate.
  - destruct (Ascii.eqb c Re.ESC && Py.startswith s (lit "\")) eqn:Hc.
    + apply andb_prop in Hc. destruct Hc as [Hc Hs].
      apply Ascii.eqb_eq in Hc. subst c. injection H as <-.
      destruct (startswith_prefix _ _ Hs) as [rest ->].
      exists rest. reflexivity.
    + destruct (Ascii.eqb c Re.NL); [discriminate|].
      destruct (Re.lazy_until_st s) as [body'|]; [|discriminate].
      injection H as <-. destruct (IH body' eq_refl) as [rest ->].
      exists rest. reflexivity.
Qed.

(** A match of [RE_ANSI] is [ESC [ sgr m] or [ESC ] osc ESC \]. *)
Lemma RE_ANSI_shape :
  forall s g len,
    Re.RE_ANSI s = Some (g, len) ->
    exists rest,
      (exists sgr,
          g = (Some sgr, None)
          /\ s = (Re.ESC :: lit "[" ++ sgr ++ lit "m") ++ rest
          /\ len = List.length sgr + 3)
      \/ (exists osc,
          g = (None, Some osc)
          /\ s = (Re.ESC :: lit "]" ++ osc ++ Re.ESC :: lit "\") ++ rest
          /\ len = List.length osc + 4).
Proof.
  intros s g len H. unfold Re.RE_ANSI in H.
  destruct s as [|c0 [|c1 s]]; try discriminate.
  destruct (Ascii.eqb c0 Re.ESC) eqn:H0; simpl in H; [|discriminate].
  apply Ascii.eqb_eq in H0. subst c0.
  destruct (Ascii.eqb c1 "[") eqn:H1.
  - apply Ascii.eqb_eq in H1. subst c1.
    destruct (Re.lazy_until "m" s) as [sgr|] eqn:Hl; [|discriminate].
    injection H as <- <-.
    destruct (lazy_until_app _ _ _ Hl) as [rest ->].
    exists rest. left. exists sgr.
    split; [reflexivity|]. split; [|lia].
    simpl. rewrite <- app_assoc. reflexivity.
  - destruct (Ascii.eqb c1 "]") eqn:H2; [|discriminate].
    apply Ascii.eqb_eq in H2. subst c1.
    destruct (Re.lazy_until_st s) as [osc|] eqn:Hl; [|discriminate].
    injection H as <- <-.
    destruct (lazy_until_st_app _ _ Hl) as [rest ->].
    exists rest. right. exists osc.
    split; [reflexivity|]. split; [|lia].
    simpl. rewrite <- app_assoc. reflexivity.
Qed.

(** In a text that ends with the reset sequence, a match either ends
    before that reset begins, or is a [ESC [ sgr m] that ends the text. *)
Lemma RE_ANSI_before_reset :
  forall u g len,
    Re.RE_ANSI (u ++ reset) = Some (g, len) ->
    len <= List.length u
    \/ (len = List.length u + 4 /\ exists sgr, g = (Some sgr, None)).
Proof.
  intros u g len H.
  destruct (RE_ANSI_shape _ _ _ H) as [rest [[sgr [-> [Hs ->]]]|[osc [-> [Hs ->]]]]].
  - assert (Hlen : List.length u + 4 = List.length sgr + 3 + List.length rest).
    { apply (f_equal (@List.length ascii)) in Hs.
      rewrite !length_app in Hs. simpl in Hs. rewrite !length_app in Hs.
      simpl in Hs. lia. }
    apply (f_equal (@rev ascii)) in Hs.
    rewrite !rev_app_distr in Hs. simpl in Hs.
    rewrite !rev_app_distr in Hs. simpl in Hs.
    destruct (rev rest) as [|r0 [|r1 [|r2 [|r3 rr]]]] eqn:Hr;
      apply (f_equal (@List.length ascii)) in Hr;
      rewrite length_rev in Hr; simpl in Hr, Hs;
      try (injection Hs; intros; discriminate).
    + right. split; [lia|]. exists sgr. reflexivity.
    + left. lia.
  - assert (Hlen : List.length u + 4 = List.length osc + 4 + List.length rest).
    { apply (f_equal (@List.length ascii)) in Hs.
      rewrite !length_app in Hs. simpl in Hs. rewrite !length_app in Hs.
      simpl in Hs. lia. }
    apply (f_equal (@rev ascii)) in Hs.
    rewrite !rev_app_distr in Hs. simpl in Hs.
    rewrite !rev_app_distr in Hs. simpl in Hs.
    destruct (rev rest) as [|r0 [|r1 [|r2 [|r3 rr]]]] eqn:Hr;
      apply (f_equal (@List.length ascii)) in Hr;
      rewrite length_rev in Hr; simpl in Hr, Hs;
      try (injection Hs; intros; discriminate).
    left. lia.
Qed.

Lemma finditer_from_skip_all :
  forall G (re : str -> option (G * nat)) text pos skip,
    List.length text <= skip -> Re.finditer_from re text pos skip = [].
Proof.
  intros G re text. induction text as [|c text IH]; intros pos skip H.
  - reflexivity.
  - simpl in H. destruct skip as [|k]; [lia|].
    simpl. apply IH. lia.
Qed.

(** The last match of [RE_ANSI] in a text that ends with the reset sequence
    is a [ESC [ sgr m] that ends the text. *)
Lemma finditer_RE_ANSI_last :
  forall u pos skip,
    skip <= List.length u ->
    exists matches start sgr osc,
      Re.finditer_from Re.RE_ANSI (u ++ reset) pos skip
      = matches
          ++ [(start, pos + List.length (u ++ reset), (Some sgr, osc))].
Proof.
  induction u as [|c u IH]; intros pos skip Hskip.
  - simpl in Hskip. assert (skip = 0) by lia. subst skip.
    exists [], pos, (lit "0"), None. reflexivity.
  - change ((c :: u) ++ reset) with (c :: (u ++ reset)).
    destruct skip as [|k].
    + cbn [Re.finditer_from].
      destruct (Re.RE_ANSI (c :: u ++ reset)) as [[g len]|] eqn:Hre.
      * destruct (RE_ANSI_before_reset (c :: u) g len Hre)
          as [Hlen|[Hlen [sgr ->]]].
        -- assert (0 < len).
           { destruct (RE_ANSI_shape _ _ _ Hre) as [? [[? [_ [_ ->]]]|[? [_ [_ ->]]]]];
               lia. }
           simpl in Hlen.
           destruct (IH (S pos) (len - 1)) as [ms [st [sgr [osc Hms]]]];
             [lia|].
           rewrite Hms. exists ((pos, pos + len, g) :: ms), st, sgr, osc.
           simpl. rewrite !length_app. simpl. repeat f_equal. lia.
        -- rewrite finditer_from_skip_all
             by (rewrite length_app; simpl in *; lia).
           exists [], pos, sgr, None. simpl.
           rewrite !length_app. simpl in *. repeat f_equal. lia.
      * destruct (IH (S pos) 0) as [ms [st [sgr [osc Hms]]]]; [lia|].
        rewrite Hms. exists ms, st, sgr, osc.
        simpl. rewrite !length_app. simpl. repeat f_equal. lia.
    + cbn [Re.finditer_from].
      simpl in Hskip.
      destruct (IH (S pos) k) as [ms [st [sgr [osc Hms]]]]; [lia|].
      rewrite Hms. exists ms, st, sgr, osc.
      simpl. rewrite !length_app. simpl. repeat f_equal. lia.
Qed.

(** *** The trailing bracket group of [ansi_to_markup] *)

(** When the last match is a [ESC [ sgr m] that ends the text, the last
    token yielded so far is a code token: either the loop yields one last, or
    it yields nothing more and [previous] is one. *)
Lemma tokenize_ansi_loop_last :
  forall text matches start' sgr osc position start end_ previous,
    (forall p, previous = Some p -> plain p = None \/ code p = None) ->
    let out :=
      tokenize_ansi_loop text
        (matches ++ [(start', List.length text, (Some sgr, osc))])
        position start end_ previous in
    (exists before t, out = before ++ [t] /\ code_token t)
    \/ (out = [] /\ exists p, previous = Some p /\ code_token p).
Proof.
  intros text matches start' sgr osc.
  induction matches as [|[[st en] [g1 g2]] matches IH];
    intros position start end_ previous Hprev out; subst out.
  - cbn [app tokenize_ansi_loop]. rewrite Nat.ltb_irrefl.
    destruct (position <? start'); cbn [Py.opt_str_eqb code negb].
    + left. eexists [_], _. split; [reflexivity|].
      split; [reflexivity|discriminate].
    + destruct previous as [p|].
      * destruct (Py.opt_str_eqb (code p) (Some sgr)) eqn:Heq; cbn [negb].
        -- right. split; [reflexivity|]. exists p. split; [reflexivity|].
           apply opt_str_eqb_eq in Heq.
           destruct (Hprev p eq_refl) as [Hp|Hc]; [|congruence].
           split; [exact Hp|congruence].
        -- left. eexists [], _. split; [reflexivity|].
           split; [reflexivity|discriminate].
      * left. eexists [], _. split; [reflexivity|].
        split; [reflexivity|discriminate].
  - cbn [app tokenize_ansi_loop].
    set (before :=
           if position <? st
           then ([mkToken st en (Some (Py.slice text position st)) None None],
                 Some (mkToken st en (Some (Py.slice text position st))
                         None None))
           else ([], previous)).
    assert (Hbefore :
              (fst before = [] /\ snd before = previous)
              \/ exists t, fst before = [t] /\ snd before = Some t
                           /\ code t = None).
    { subst before. destruct (position <? st); [right|left; auto].
      eexists. repeat split. }
    destruct before as [bs prev1]. cbn [fst snd] in Hbefore.
    set (fresh :=
           match prev1 with
           | Some p => negb (Py.opt_str_eqb (code p) g1)
           | None => true
           end).
    set (token := mkToken st en None g1 None).
    assert (Hprev1 : forall p, prev1 = Some p -> plain p = None \/ code p = None).
    { destruct Hbefore as [[_ ->]|[t [_ [-> Ht]]]]; [exact Hprev|].
      intros p Hp. injection Hp as <-. right. exact Ht. }
    destruct fresh.
    + destruct (IH en st en (Some token)) as [[b [t [Hout Ht]]]|[Hout [p [Hp Hcode]]]].
      { intros p Hp. injection Hp as <-. left. reflexivity. }
      * left. exists (bs ++ [token] ++ b), t. rewrite Hout.
        rewrite <- !app_assoc. split; [reflexivity|exact Ht].
      * left. exists bs, token. rewrite Hout.
        injection Hp as <-. split; [reflexivity|exact Hcode].
    + destruct (IH en st en prev1 Hprev1)
        as [[b [t [Hout Ht]]]|[Hout [p [Hp Hcode]]]].
      * left. exists (bs ++ b), t. rewrite Hout.
        cbn [app]. rewrite <- app_assoc. split; [reflexivity|exact Ht].
      * destruct Hbefore as [[-> ->]|[t [_ [-> Ht]]]].
        -- right. rewrite Hout. split; [reflexivity|].
           exists p. split; [exact Hp|exact Hcode].
        -- injection Hp as <-. destruct Hcode as [_ Hc]. congruence.
Qed.

(** The token stream of [tokenize_ansi] always ends with a code token. *)
Lemma tokenize_ansi_ends_with_code :
  forall ansi,
    exists before t, tokenize_ansi ansi = before ++ [t] /\ code_token t.
Proof.
  intros ansi. unfold tokenize_ansi.
  set (text := if negb (Py.endswith ansi reset)
               then ansi ++ Re.ESC :: lit "[0m" else ansi).
  assert (Htext : exists u, text = u ++ reset).
  { subst text. destruct (Py.endswith ansi reset) eqn:H; simpl.
    - apply endswith_suffix. exact H.
    - exists ansi. reflexivity. }
  destruct Htext as [u Hu].
  unfold Re.finditer.
  destruct (finditer_RE_ANSI_last u 0 0) as [ms [st [sgr [osc Hms]]]]; [lia|].
  rewrite <- Hu in Hms. rewrite Hms. cbn [Nat.add].
  destruct (tokenize_ansi_loop_last text ms st sgr osc 0 0 0 None)
    as [H|[_ [p [Hp _]]]].
  - intros p Hp. discriminate.
  - exact H.
  - discriminate.
Qed.

(** The result of the fold ends with the group of the names of the code
    tokens that follow the last token without a code. *)
Lemma ansi_to_markup_loop_trailing :
  forall names tokens markup in_attr current_bracket out,
    ansi_to_markup_loop names tokens markup in_attr current_bracket = Ok out ->
    (in_attr = false -> current_bracket = []) ->
    exists body before trailing trailing_names,
      out = body
              ++ group ((match before with
                         | [] => current_bracket
                         | _ => []
                         end) ++ trailing_names)
      /\ tokens = before ++ trailing
      /\ (before = [] \/ exists b t, before = b ++ [t] /\ code t = None)
      /\ Forall (fun t => code t <> None) trailing
      /\ Forall2 (fun t name => to_name names t = Ok name)
           trailing trailing_names.
Proof.
  intros names tokens.
  induction tokens as [|t tokens IH];
    intros markup in_attr bracket out H Hattr; cbn [ansi_to_markup_loop] in H.
  - injection H as <-.
    exists markup, [], [], []. rewrite app_nil_r.
    repeat split; auto.
  - destruct (code t) as [c|] eqn:Hcode.
    + destruct (to_name names t) as [name|e] eqn:Hname; simpl in H;
        [|discriminate].
      destruct (IH _ _ _ _ H) as [body [before [trailing [tn IHs]]]];
        [discriminate|].
      destruct IHs as [Hout [Htok [Hlast [Hall Hnames]]]].
      destruct before as [|b0 before].
      * exists body, [], (t :: trailing), (name :: tn).
        rewrite <- app_assoc in Hout.
        repeat split; auto.
        -- simpl in Htok. subst tokens. reflexivity.
        -- constructor; [congruence|exact Hall].
      * exists body, (t :: b0 :: before), trailing, tn.
        repeat split; auto.
        -- subst tokens. reflexivity.
        -- right. destruct Hlast as [Hnil|[b [t' [Hb Ht']]]]; [discriminate|].
           exists (t :: b), t'. rewrite Hb. split; [reflexivity|exact Ht'].
    + set (flushed :=
             if in_attr
             then (markup ++ lit "[" ++ Py.join (lit " ") bracket ++ lit "]",
                   @nil str)
             else (markup, bracket)) in H.
      assert (Hflushed : snd flushed = []).
      { subst flushed. destruct in_attr; [reflexivity|]. simpl. auto. }
      destruct flushed as [markup' bracket']. simpl in Hflushed. subst bracket'.
      destruct (to_name names t) as [name|e] eqn:Hname; simpl in H;
        [|discriminate].
      destruct (IH _ _ _ _ H) as [body [before [trailing [tn IHs]]]];
        [reflexivity|].
      destruct IHs as [Hout [Htok [Hlast [Hall Hnames]]]].
      exists body, (t :: before), trailing, tn.
      repeat split; auto.
      * rewrite Hout. destruct before; reflexivity.
      * subst tokens. reflexivity.
      * right. destruct Hlast as [->|[b [t' [Hb Ht']]]].
        -- exists [], t. split; [reflexivity|exact Hcode].
        -- exists (t :: b), t'. rewrite Hb. split; [reflexivity|exact Ht'].
Qed.

(** C9, as stated, fails: on the input [ESC [ 0 m] the token stream is the
    single reset token, and the result does not end with an empty group. *)
Lemma trailing_group_counterexample :
  let ansi := Re.ESC :: lit "[0m" in
  ~ (forall out,
        ansi_to_markup docstring_names ansi = Ok out ->
        map content (tokenize_ansi ansi) = [sgr_code "0"] ->
        Py.endswith out (lit "[]") = true).
Proof.
  intros ansi H.
  specialize (H (lit "[/]") eq_refl eq_refl).
  vm_compute in H. discriminate.
Qed.

(** C9, amended: for every ANSI string that is accepted, the result of
    [ansi_to_markup] ends with a bracket group, flushed after the last token
    whatever the buffer holds; the group holds the names of the code tokens
    that follow the last plain token, and is never empty, since the stream
    ends with a code token; when that last token is a reset, the group ends
    with the name ["/"], as in ["[/]"]. *)
Theorem ansi_to_markup_trailing_group :
  forall names ansi out,
    ansi_to_markup names ansi = Ok out ->
    exists body before trailing trailing_names,
      out = body ++ group trailing_names
      /\ tokenize_ansi ansi = before ++ trailing
      /\ (before = [] \/ exists b t, before = b ++ [t] /\ code t = None)
      /\ Forall (fun t => code t <> None) trailing
      /\ Forall2 (fun t name => to_name names t = Ok name)
           trailing trailing_names
      /\ trailing_names <> []
      /\ (forall b t,
             tokenize_ansi ansi = b ++ [t] ->
             content t = sgr_code "0" ->
             exists others, trailing_names = others ++ [lit "/"]).
Proof.
  intros names ansi out H.
  unfold ansi_to_markup in H.
  destruct (ansi_to_markup_loop_trailing _ _ _ _ _ _ H (fun _ => eq_refl))
    as [body [before [trailing [tn [Hout [Htok [Hlast [Hall Hnames]]]]]]]].
  assert (Hout' : out = body ++ group tn).
  { rewrite Hout. destruct before; reflexivity. }
  assert (Hend : forall b t,
             tokenize_ansi ansi = b ++ [t] -> code t <> None ->
             exists tr others name,
               trailing = tr ++ [t] /\ tn = others ++ [name]
               /\ to_name names t = Ok name).
  { intros b t Hb Ht.
    destruct (exists_last (l := trailing)) as [tr [t' Htr]].
    - intros ->. rewrite app_nil_r in Htok.
      destruct Hlast as [->|[b' [t' [-> Ht']]]].
      + rewrite Htok in Hb. destruct b; discriminate.
      + rewrite Htok in Hb. apply app_inj_tail in Hb.
        destruct Hb as [_ <-]. contradiction.
    - subst trailing. rewrite Htok, app_assoc in Hb.
      apply app_inj_tail in Hb. destruct Hb as [_ <-].
      apply Forall2_app_inv_l in Hnames.
      destruct Hnames as [others [last_name [_ [Hone ->]]]].
      inversion Hone as [|t0 name l0 l1 Hname Hnil]; subst.
      inversion Hnil; subst.
      exists tr, others, name. auto. }
  exists body, before, trailing, tn.
  repeat split; auto.
  - destruct (tokenize_ansi_ends_with_code ansi) as [b [t [Hb [_ Ht]]]].
    destruct (Hend b t Hb Ht) as [_ [others [name [_ [-> _]]]]].
    intros Hnil. destruct others; discriminate.
  - intros b t Hb Ht. unfold content, sgr_code in Ht.
    injection Ht as Hplain Hcode.
    destruct (Hend b t Hb) as [_ [others [name [_ [-> Hname]]]]];
      [congruence|].
    exists others. unfold to_name in Hname. rewrite Hplain, Hcode in Hname.
    vm_compute in Hname. injection Hname as <-. reflexivity.
Qed.

(** [ansi_to_markup_trailing_group] at [ESC[1m hi ESC[0m]. *)
Lemma ansi_to_markup_trailing_group_witness :
  let ansi := Re.ESC :: lit "[1mhi" ++ Re.ESC :: lit "[0m" in
  ansi_to_markup docstring_names ansi = Ok (lit "[bold]hi[/]")
  /\ exists body before trailing trailing_names,
      lit "[bold]hi[/]" = body ++ group trailing_names
      /\ tokenize_ansi ansi = before ++ trailing
      /\ (before = [] \/ exists b t, before = b ++ [t] /\ code t = None)
      /\ Forall (fun t => code t <> None) trailing
      /\ Forall2 (fun t name => to_name docstring_names t = Ok name)
           trailing trailing_names
      /\ trailing_names <> []
      /\ (forall b t,
             tokenize_ansi ansi = b ++ [t] ->
             content t = sgr_code "0" ->
             exists others, trailing_names = others ++ [lit "/"]).
Proof.
  intros ansi.
  split; [reflexivity|].
  apply (ansi_to_markup_trailing_group docstring_names ansi).
  reflexivity.
Defined.

(** *** Where [finditer] finds its matches *)

Section Finditer.

Context {G : Type}.
Variable re : str -> option (G * nat).

(** No match is empty, and none is longer than the text. *)
Hypothesis re_length :
  forall s g len, re s = Some (g, len) -> 0 < len <= List.length s.

Lemma matches_in_weaken :
  forall text lo lo' matches,
    lo' <= lo -> matches_in re text lo matches -> matches_in re text lo' matches.
Proof.
  intros text lo lo' [|[[st en] g] ms] Hle H; simpl in *; [exact I|].
  destruct H as [H H']. split; [lia|exact H'].
Qed.

Lemma finditer_from_matches_in :
  forall s before pos skip,
    pos = List.length before ->
    skip <= List.length s ->
    matches_in re (before ++ s) (pos + skip) (Re.finditer_from re s pos skip).
Proof.
  induction s as [|c s IH]; intros before pos skip Hpos Hskip;
    cbn [Re.finditer_from]; [exact I|].
  assert (Htext : before ++ c :: s = (before ++ [c]) ++ s)
    by (rewrite <- app_assoc; reflexivity).
  assert (Hpos' : S pos = List.length (before ++ [c]))
    by (rewrite length_app; simpl; lia).
  simpl in Hskip.
  destruct skip as [|k].
  - destruct (re (c :: s)) as [[g len]|] eqn:Hre.
    + destruct (re_length _ _ _ Hre) as [Hpos_len Hlen]. simpl in Hlen.
      cbn [matches_in]. split; [lia|]. split.
      { rewrite length_app. simpl. lia. }
      split.
      { subst pos. rewrite skipn_app, Nat.sub_diag, skipn_all. simpl.
        rewrite Hre. repeat f_equal. lia. }
      rewrite Htext.
      replace (pos + len) with (S pos + (len - 1)) by lia.
      apply IH; [exact Hpos'|lia].
    + rewrite Htext. apply matches_in_weaken with (lo := S pos + 0); [lia|].
      apply IH; [exact Hpos'|lia].
  - rewrite Htext. replace (pos + S k) with (S pos + k) by lia.
    apply IH; [exact Hpos'|lia].
Qed.

Lemma finditer_matches_in :
  forall text, matches_in re text 0 (Re.finditer re text).
Proof.
  intros text. apply (finditer_from_matches_in text [] 0 0); [reflexivity|lia].
Qed.

End Finditer.

(** Each match of the list lies in the text and is a match of [re] where
    it starts. *)
Lemma matches_in_In :
  forall G (re : str -> option (G * nat)) text matches lo st en g,
    matches_in re text lo matches ->
    In (st, en, g) matches ->
    st < en <= List.length text /\ re (skipn st text) = Some (g, en - st).
Proof.
  intros G re text matches.
  induction matches as [|[[st' en'] g'] matches IH];
    intros lo st en g Hm Hin; [destruct Hin|].
  destruct Hm as [_ [Hspan [Hre Hm]]].
  destruct Hin as [Heq|Hin].
  - injection Heq as <- <- <-. auto.
  - exact (IH _ _ _ _ Hm Hin).
Qed.

Lemma backslashes_prefix :
  forall s,
    Forall (eq backslash) (Re.backslashes s)
    /\ s = Re.backslashes s ++ skipn (List.length (Re.backslashes s)) s.
Proof.
  induction s as [|c s [IH1 IH2]]; simpl.
  - split; [constructor|reflexivity].
  - destruct (Ascii.eqb c "\") eqn:Hc.
    + apply Ascii.eqb_eq in Hc. subst c. simpl.
      split; [constructor; [reflexivity|exact IH1]|].
      f_equal. exact IH2.
    + split; [constructor|reflexivity].
Qed.

Lemma lazy_until_not_in :
  forall stop s body, Re.lazy_until stop s = Some body -> ~ In stop body.
Proof.
  intros stop s. induction s as [|c s IH]; intros body H; simpl in H.
  - discriminate.
  - destruct (Ascii.eqb c stop) eqn:Hc.
    + injection H as <-. intros [].
    + destruct (Ascii.eqb c Re.NL); [discriminate|].
      destruct (Re.lazy_until stop s) as [body'|]; [|discriminate].
      injection H as <-. intros [->|Hin].
      * rewrite Ascii.eqb_refl in Hc. discriminate.
      * exact (IH body' eq_refl Hin).
Qed.

(** A match of [RE_TAGS] is a run of backslashes and a bracket group that
    ends at the first closing bracket. *)
Lemma RE_TAGS_shape :
  forall s whole escapes tag_text len,
    Re.RE_TAGS s = Some ((whole, escapes, tag_text), len) ->
    Forall (eq backslash) escapes
    /\ ~ In "]"%char tag_text
    /\ len = List.length escapes + List.length tag_text + 2
    /\ exists rest, s = escapes ++ (lit "[" ++ tag_text ++ lit "]") ++ rest.
Proof.
  intros s whole escapes tag_text len H. unfold Re.RE_TAGS in H.
  destruct (backslashes_prefix s) as [Hesc Hs].
  destruct (skipn (List.length (Re.backslashes s)) s)
    as [|c0 [|c1 s']] eqn:Hskip; try discriminate.
  destruct (Ascii.eqb c0 "[") eqn:H0; [|discriminate].
  destruct (Re.tag_first c1) eqn:H1; [|discriminate].
  cbn [andb] in H.
  destruct (Re.lazy_until "]" s') as [body|] eqn:Hbody; [|discriminate].
  injection H as _ <- <- <-.
  apply Ascii.eqb_eq in H0. subst c0.
  destruct (lazy_until_app _ _ _ Hbody) as [rest ->].
  split; [exact Hesc|]. split.
  { intros [Heq|Hin]; [subst c1; vm_compute in H1; discriminate|].
    exact (lazy_until_not_in _ _ _ Hbody Hin). }
  split; [simpl; lia|].
  exists rest. rewrite Hs at 1. f_equal. simpl.
  rewrite <- app_assoc. reflexivity.
Qed.

Lemma RE_TAGS_length :
  forall s g len, Re.RE_TAGS s = Some (g, len) -> 0 < len <= List.length s.
Proof.
  intros s [[whole escapes] tag_text] len H.
  destruct (RE_TAGS_shape _ _ _ _ _ H) as [_ [_ [-> [rest Hs]]]].
  apply (f_equal (@List.length ascii)) in Hs.
  repeat (rewrite length_app in Hs; simpl in Hs). lia.
Qed.

(** *** The spans of the markup tokens *)

Lemma firstn_app_exact :
  forall (l r : str) n, n = List.length l -> firstn n (l ++ r) = l.
Proof.
  intros l r n ->. rewrite firstn_app, Nat.sub_diag, firstn_all. simpl.
  apply app_nil_r.
Qed.

Lemma Forall_skipn :
  forall (P : ascii -> Prop) n l, Forall P l -> Forall P (skipn n l).
Proof.
  intros P n. induction n as [|n IH]; intros l H; [exact H|].
  destruct l as [|c l]; [constructor|]. simpl. apply IH.
  inversion H; assumption.
Qed.

(** The spans that the tokens of one match carry. *)
Lemma match_span_of_group :
  forall text st en whole escapes tag_text d,
    st < en <= List.length text ->
    Re.RE_TAGS (skipn st text) = Some ((whole, escapes, tag_text), en - st) ->
    d <= List.length escapes ->
    span_of_group text (st + d) en
    /\ (d = List.length escapes ->
        bracket_group (Py.slice text (st + d) en)).
Proof.
  intros text st en whole escapes tag_text d Hspan Hre Hd.
  destruct (RE_TAGS_shape _ _ _ _ _ Hre) as [Hesc [Hbody [Hlen [rest Hs]]]].
  assert (Hslice : Py.slice text (st + d) en
                   = skipn d escapes ++ lit "[" ++ tag_text ++ lit "]").
  { unfold Py.slice. rewrite Nat.add_comm, <- skipn_skipn, Hs.
    rewrite skipn_app. replace (d - List.length escapes) with 0 by lia.
    cbn [skipn]. rewrite app_assoc.
    apply firstn_app_exact.
    rewrite !length_app, length_skipn. simpl. lia. }
  split.
  - split; [lia|]. rewrite Hslice.
    exists (skipn d escapes), (lit "[" ++ tag_text ++ lit "]").
    split; [reflexivity|]. split; [apply Forall_skipn; exact Hesc|].
    exists tag_text. split; [reflexivity|exact Hbody].
  - intros ->. rewrite Hslice, skipn_all. exists tag_text.
    split; [reflexivity|exact Hbody].
Qed.

Lemma tag_token_span :
  forall names translate_hex s e tag t,
    tag_token names translate_hex s e tag = Ok t ->
    start t = s /\ end_ t = e.
Proof.
  intros names translate_hex s e tag t H. unfold tag_token in H.
  destruct (Py.list_index NAMES tag); [inversion H; auto|].
  destruct (dict_get UNSET_MAP tag); [inversion H; auto|].
  destruct (_handle_named_color names translate_hex tag) as [[[c b]|]|];
    simpl in H; try discriminate; [inversion H; auto|].
  destruct (_handle_color translate_hex tag) as [[[c b]|]|];
    simpl in H; try discriminate. inversion H; auto.
Qed.

Lemma tags_loop_span :
  forall names translate_hex s e tags,
    Forall (fun t => start t = s /\ end_ t = e)
      (yielded (tags_loop names translate_hex s e tags)).
Proof.
  intros names translate_hex s e tags.
  induction tags as [|tag tags IH]; simpl; [constructor|].
  destruct (tag_token names translate_hex s e tag) eqn:Htag; simpl;
    [|constructor].
  constructor; [|exact IH]. eapply tag_token_span; eassumption.
Qed.

(** Two concatenations of the same lists. *)
Ltac lists_equal :=
  rewrite ?app_nil_r, <- ?app_assoc; cbn [app]; reflexivity.

(** One turn of the loop of [tokenize_markup]: plain tokens that carry the
    span of the match, then tokens whose start has moved past the halved
    backslashes, tag tokens among them only when no backslash is left over,
    and then the tokens of the turns that follow. *)
Lemma tokenize_markup_loop_step :
  forall names translate_hex text st en (whole escapes tag_text : str)
         matches position span,
    let st' := st + 2 * (List.length escapes / 2) in
    exists first second tail,
      yielded (tokenize_markup_loop names translate_hex text
                 ((st, en, (whole, escapes, tag_text)) :: matches)
                 position span)
      = (first ++ second) ++ tail
      /\ Forall (fun t => start t = st /\ end_ t = en /\ code t = None) first
      /\ Forall (fun t => start t = st' /\ end_ t = en
                          /\ (code t <> None ->
                              st' = st + List.length escapes)) second
      /\ (tail = []
          \/ tail = yielded (tokenize_markup_loop names translate_hex text
                               matches en (Some (st', en)))).
Proof.
  intros names translate_hex text st en whole escapes tag_text matches
    position span st'.
  cbn [tokenize_markup_loop].
  set (before := if position <? st
                 then [mkToken st en (Some (Py.slice text position st))
                         None None]
                 else []).
  assert (Hbefore :
            Forall (fun t => start t = st /\ end_ t = en /\ code t = None)
              before).
  { subst before. destruct (position <? st); repeat constructor. }
  clearbody before.
  pose proof (Nat.div_mod_eq (List.length escapes) 2) as Hdiv.
  assert (Hplain : forall s text0,
             s = st' ->
             Forall (fun t => start t = st' /\ end_ t = en
                              /\ (code t <> None ->
                                  st' = st + List.length escapes))
               [mkToken s en (Some text0) None None]).
  { intros s text0 ->. constructor; [|constructor].
    split; [reflexivity|]. split; [reflexivity|].
    intros H; exfalso; apply H; reflexivity. }
  assert (Htags : forall s,
             s = st' -> List.length escapes mod 2 <= 0 ->
             Forall (fun t => start t = st' /\ end_ t = en
                              /\ (code t <> None ->
                                  st' = st + List.length escapes))
               (yielded (tags_loop names translate_hex s en
                           (Py.split_ws tag_text)))).
  { intros s -> He.
    eapply Forall_impl; [|apply tags_loop_span]. intros t [H1 H2].
    split; [exact H1|]. split; [exact H2|]. intros _. subst st'. lia. }
  set (halved := mkToken st en
                   (Some (Py.repeat_str (List.length escapes / 2) (lit "\")))
                   None None).
  set (tail := yielded (tokenize_markup_loop names translate_hex text matches
                          en (Some (st', en)))).
  destruct (0 <? List.length escapes / 2) eqn:Hb.
  - assert (Hst : st + List.length escapes / 2 * 2 = st') by (subst st'; lia).
    rewrite Hst.
    destruct (0 <? List.length escapes mod 2) eqn:He.
    + exists (before ++ [halved]),
        [mkToken st' en (Some (Py.slice_from tag_text (List.length escapes)))
           None None], tail.
      unfold yield; cbn [yielded].
      split; [lists_equal|].
      split; [apply Forall_app; split; [exact Hbefore|repeat constructor]|].
      split; [apply Hplain; reflexivity|right; reflexivity].
    + apply Nat.ltb_ge in He.
      unfold yield; cbn [yielded].
      destruct (raised (tags_loop names translate_hex st' en
                          (Py.split_ws tag_text))); cbn [yielded].
      * exists (before ++ [halved]),
          (yielded (tags_loop names translate_hex st' en
                      (Py.split_ws tag_text))), [].
        split; [lists_equal|].
        split; [apply Forall_app; split; [exact Hbefore|repeat constructor]|].
        split; [apply Htags; [reflexivity|exact He]|left; reflexivity].
      * exists (before ++ [halved]),
          (yielded (tags_loop names translate_hex st' en
                      (Py.split_ws tag_text))), tail.
        split; [lists_equal|].
        split; [apply Forall_app; split; [exact Hbefore|repeat constructor]|].
        split; [apply Htags; [reflexivity|exact He]|right; reflexivity].
  - apply Nat.ltb_ge in Hb.
    assert (Hst : st = st') by (subst st'; lia).
    destruct (0 <? List.length escapes mod 2) eqn:He.
    + exists before,
        [mkToken st en (Some (Py.slice_from tag_text (List.length escapes)))
           None None],
        (yielded (tokenize_markup_loop names translate_hex text matches en
                    (Some (st, en)))).
      unfold yield; cbn [yielded app].
      split; [lists_equal|].
      split; [exact Hbefore|].
      split; [apply Hplain; exact Hst|].
      right. subst tail. rewrite <- Hst. reflexivity.
    + apply Nat.ltb_ge in He.
      unfold yield; cbn [yielded app].
      destruct (raised (tags_loop names translate_hex st en
                          (Py.split_ws tag_text))); cbn [yielded].
      * exists before,
          (yielded (tags_loop names translate_hex st en
                      (Py.split_ws tag_text))), [].
        split; [lists_equal|].
        split; [exact Hbefore|].
        split; [apply Htags; [exact Hst|exact He]|left; reflexivity].
      * exists before,
          (yielded (tags_loop names translate_hex st en
                      (Py.split_ws tag_text))),
          (yielded (tokenize_markup_loop names translate_hex text matches en
                      (Some (st, en)))).
        split; [lists_equal|].
        split; [exact Hbefore|].
        split; [apply Htags; [exact Hst|exact He]|].
        right. subst tail. rewrite <- Hst. reflexivity.
Qed.

Lemma ForallOrdPairs_app :
  forall (A : Type) (R : A -> A -> Prop) (l1 l2 : list A),
    ForallOrdPairs R l1 ->
    ForallOrdPairs R l2 ->
    (forall a b, In a l1 -> In b l2 -> R a b) ->
    ForallOrdPairs R (l1 ++ l2).
Proof.
  intros A R l1 l2 H1 H2 H12.
  induction H1 as [|a l1 Ha H1 IH]; simpl; [exact H2|].
  constructor.
  - apply Forall_app. split; [exact Ha|].
    apply Forall_forall. intros b Hb. apply H12; [left; reflexivity|exact Hb].
  - apply IH. intros a' b Ha' Hb. apply H12; [right; exact Ha'|exact Hb].
Qed.

(** Every token of the loop starts at or after the current position, but
    for the text after the last match, which takes the current binding of
    [start] and [end]. *)
Lemma tokenize_markup_loop_lower :
  forall names translate_hex text matches position span,
    matches_in Re.RE_TAGS text position matches ->
    Forall (fun t => position <= start t
                     \/ span = Some (start t, end_ t))
      (yielded (tokenize_markup_loop names translate_hex text matches
                  position span)).
Proof.
  intros names translate_hex text matches.
  induction matches as [|[[st en] [[whole escapes] tag_text]] matches IH];
    intros position span Hin.
  - cbn [tokenize_markup_loop].
    destruct (position <? List.length text); [|constructor].
    destruct span as [[s e]|]; simpl; [|constructor].
    constructor; [right; reflexivity|constructor].
  - destruct Hin as [Hlo [Hspan [Hre Hin]]].
    destruct (tokenize_markup_loop_step names translate_hex text st en whole
                escapes tag_text matches position span)
      as [first [second [tail [Heq [H1 [H2 Htail]]]]]].
    rewrite Heq. clear Heq.
    apply Forall_app. split; [apply Forall_app; split|].
    + eapply Forall_impl; [|exact H1]. intros t [Hs _]. left. lia.
    + eapply Forall_impl; [|exact H2]. intros t [Hs _]. left. lia.
    + destruct Htail as [->| ->]; [constructor|].
      eapply Forall_impl; [|exact (IH en _ Hin)].
      intros t [Ht|Ht].
      * left. lia.
      * assert (Hs : st + 2 * (List.length escapes / 2) = start t)
          by congruence.
        left. lia.
Qed.

(** The spans of the tokens come in the order of the groups. *)
Lemma tokenize_markup_loop_ordered :
  forall names translate_hex text matches position span,
    matches_in Re.RE_TAGS text position matches ->
    ForallOrdPairs follows
      (yielded (tokenize_markup_loop names translate_hex text matches
                  position span)).
Proof.
  intros names translate_hex text matches.
  induction matches as [|[[st en] [[whole escapes] tag_text]] matches IH];
    intros position span Hin.
  - cbn [tokenize_markup_loop].
    destruct (position <? List.length text); [|constructor].
    destruct span as [[s e]|]; simpl; [|constructor].
    constructor; constructor.
  - destruct Hin as [Hlo [Hspan [Hre Hin]]].
    destruct (tokenize_markup_loop_step names translate_hex text st en whole
                escapes tag_text matches position span)
      as [first [second [tail [Heq [H1 [H2 Htail]]]]]].
    rewrite Heq. clear Heq.
    rewrite Forall_forall in H1, H2.
    assert (Hsame : forall (s : nat) (l : list Token),
               (forall t, In t l -> start t = s /\ end_ t = en) ->
               ForallOrdPairs follows l).
    { intros s l. induction l as [|a l IHl]; intros Hl; constructor.
      - apply Forall_forall. intros b Hb. left.
        destruct (Hl a (or_introl eq_refl)) as [-> ->].
        destruct (Hl b (or_intror Hb)) as [-> ->]. auto.
      - apply IHl. intros t Ht. apply Hl. right. exact Ht. }
    apply ForallOrdPairs_app; [apply ForallOrdPairs_app| |].
    + apply (Hsame st). intros t Ht. destruct (H1 t Ht) as [? [? _]]. auto.
    + apply (Hsame (st + 2 * (List.length escapes / 2))).
      intros t Ht. destruct (H2 t Ht) as [? [? _]]. auto.
    + intros a b Ha Hb. left.
      destruct (H1 a Ha) as [-> [-> _]]. destruct (H2 b Hb) as [-> [-> _]].
      split; [reflexivity|lia].
    + destruct Htail as [->| ->]; [constructor|]. apply IH. exact Hin.
    + intros a b Ha Hb.
      assert (Ha' : end_ a = en
                    /\ start a <= st + 2 * (List.length escapes / 2)).
      { apply in_app_or in Ha. destruct Ha as [Ha|Ha].
        - destruct (H1 a Ha) as [-> [-> _]]. split; [reflexivity|lia].
        - destruct (H2 a Ha) as [-> [-> _]]. split; [reflexivity|lia]. }
      destruct Ha' as [Hae Has].
      destruct Htail as [->| ->]; [destruct Hb|].
      pose proof (tokenize_markup_loop_lower names translate_hex text matches
                    en (Some (st + 2 * (List.length escapes / 2), en)) Hin)
        as Hlow.
      rewrite Forall_forall in Hlow.
      destruct (Hlow b Hb) as [Hbs|Hbs].
      * right. lia.
      * assert (Hs : st + 2 * (List.length escapes / 2) = start b
                     /\ en = end_ b) by (split; congruence).
        left. split; lia.
Qed.

(** Every token carries the span of a bracket group of the text. *)
Lemma tokenize_markup_loop_group_span :
  forall names translate_hex text matches position span,
    matches_in Re.RE_TAGS text position matches ->
    (forall s e, span = Some (s, e) -> span_of_group text s e) ->
    Forall (group_span text)
      (yielded (tokenize_markup_loop names translate_hex text matches
                  position span)).
Proof.
  intros names translate_hex text matches.
  induction matches as [|[[st en] [[whole escapes] tag_text]] matches IH];
    intros position span Hin Hsp.
  - cbn [tokenize_markup_loop].
    destruct (position <? List.length text); [|constructor].
    destruct span as [[s e]|]; simpl; [|constructor].
    constructor; [|constructor].
    split; [exact (Hsp s e eq_refl)|]. simpl. intros H. congruence.
  - destruct Hin as [Hlo [Hspan [Hre Hin]]].
    destruct (tokenize_markup_loop_step names translate_hex text st en whole
                escapes tag_text matches position span)
      as [first [second [tail [Heq [H1 [H2 Htail]]]]]].
    rewrite Heq. clear Heq.
    pose proof (Nat.div_mod_eq (List.length escapes) 2) as Hdiv.
    apply Forall_app. split; [apply Forall_app; split|].
    + eapply Forall_impl; [|exact H1]. intros t [Hs [He Hc]].
      unfold group_span. rewrite Hs, He.
      destruct (match_span_of_group text st en whole escapes tag_text 0
                  Hspan Hre) as [H0 _]; [lia|].
      rewrite Nat.add_0_r in H0. split; [exact H0|]. congruence.
    + eapply Forall_impl; [|exact H2]. intros t [Hs [He Hc]].
      unfold group_span. rewrite Hs, He.
      destruct (match_span_of_group text st en whole escapes tag_text
                  (2 * (List.length escapes / 2)) Hspan Hre) as [H0 H0'];
        [lia|].
      split; [exact H0|]. intros Hcode. apply H0'.
      specialize (Hc Hcode). lia.
    + destruct Htail as [->| ->]; [constructor|].
      apply IH; [exact Hin|].
      intros s e Hse. injection Hse as <- <-.
      destruct (match_span_of_group text st en whole escapes tag_text
                  (2 * (List.length escapes / 2)) Hspan Hre) as [H0 _];
        [lia|exact H0].
Qed.

(** The text of the tags of a match starts with a character of the class
    [[a-z0-9!#@/]], which is not whitespace: the group has a tag. *)
Lemma RE_TAGS_has_tag :
  forall s whole escapes tag_text len,
    Re.RE_TAGS s = Some ((whole, escapes, tag_text), len) ->
    Py.split_ws tag_text <> [].
Proof.
  intros s whole escapes tag_text len H. unfold Re.RE_TAGS in H.
  destruct (skipn (List.length (Re.backslashes s)) s)
    as [|c0 [|c1 s']]; try discriminate.
  destruct (Ascii.eqb c0 "["); [|discriminate].
  destruct (Re.tag_first c1) eqn:H1; [|discriminate].
  cbn [andb] in H.
  destruct (Re.lazy_until "]" s') as [body|]; [|discriminate].
  injection H as _ _ <- _.
  assert (Hspace : Py.char_isspace c1 = false).
  { destruct c1 as [[] [] [] [] [] [] [] []];
      try reflexivity; vm_compute in H1; discriminate. }
  assert (Hcur : forall (s0 cur : str),
             cur <> [] -> Py.split_ws_from s0 cur <> []).
  { induction s0 as [|c s0 IH]; intros cur Hc; simpl.
    - destruct cur; [congruence|discriminate].
    - destruct (Py.char_isspace c).
      + destruct cur; [congruence|discriminate].
      + apply IH. destruct cur; discriminate. }
  unfold Py.split_ws. cbn [Py.split_ws_from]. rewrite Hspace.
  apply Hcur. discriminate.
Qed.

(** The matches come one after the other, so that a position lies in at
    most one of them. *)
Lemma matches_in_lower :
  forall G (re : str -> option (G * nat)) text matches lo st en g,
    matches_in re text lo matches ->
    In (st, en, g) matches ->
    lo <= st.
Proof.
  intros G re text matches.
  induction matches as [|[[st' en'] g'] matches IH];
    intros lo st en g Hm Hin; [destruct Hin|].
  destruct Hm as [Hlo [Hspan [_ Hm]]].
  destruct Hin as [Heq|Hin].
  - injection Heq as <- <- <-. exact Hlo.
  - pose proof (IH _ _ _ _ Hm Hin). lia.
Qed.

Lemma matches_in_disjoint :
  forall G (re : str -> option (G * nat)) text matches lo st1 en1 g1
         st2 en2 g2 i,
    matches_in re text lo matches ->
    In (st1, en1, g1) matches ->
    In (st2, en2, g2) matches ->
    st1 <= i < en1 ->
    st2 <= i < en2 ->
    (st1, en1, g1) = (st2, en2, g2).
Proof.
  intros G re text matches.
  induction matches as [|[[st en] g] matches IH];
    intros lo st1 en1 g1 st2 en2 g2 i Hm H1 H2 Hi1 Hi2; [destruct H1|].
  destruct Hm as [Hlo [Hspan [_ Hm]]].
  destruct H1 as [E1|H1]; destruct H2 as [E2|H2].
  - congruence.
  - injection E1 as <- <- <-.
    pose proof (matches_in_lower _ _ _ _ _ _ _ _ Hm H2). lia.
  - injection E2 as <- <- <-.
    pose proof (matches_in_lower _ _ _ _ _ _ _ _ Hm H1). lia.
  - exact (IH _ _ _ _ _ _ _ _ Hm H1 H2 Hi1 Hi2).
Qed.

(** A group that is not escaped lies in the text, from its opening bracket
    to the first closing one. *)
Lemma tag_group_slice :
  forall text lo hi tag_text,
    tag_group text lo hi tag_text ->
    lo < hi <= List.length text
    /\ Py.slice text lo hi = lit "[" ++ tag_text ++ lit "]"
    /\ ~ In "]"%char tag_text
    /\ Py.split_ws tag_text <> [].
Proof.
  intros text lo hi tag_text [st [whole [escapes [Hin [_ ->]]]]].
  destruct (matches_in_In _ _ _ _ _ _ _ _
              (finditer_matches_in Re.RE_TAGS RE_TAGS_length text) Hin)
    as [Hspan Hre].
  destruct (RE_TAGS_shape _ _ _ _ _ Hre) as [_ [Hbody [Hlen [rest Hs]]]].
  split; [lia|]. split; [|split; [exact Hbody|]].
  - unfold Py.slice. rewrite Nat.add_comm, <- skipn_skipn, Hs.
    rewrite skipn_app, skipn_all, Nat.sub_diag. cbn [skipn app].
    rewrite firstn_app_exact; [reflexivity|].
    rewrite !length_app. simpl. lia.
  - exact (RE_TAGS_has_tag _ _ _ _ _ Hre).
Qed.

Lemma tag_token_code :
  forall names translate_hex s e tag t,
    tag_token names translate_hex s e tag = Ok t -> code t <> None.
Proof.
  intros names translate_hex s e tag t H.
  unfold tag_token in H.
  destruct (Py.list_index NAMES tag).
  { inversion H; discriminate. }
  destruct (dict_get UNSET_MAP tag).
  { inversion H; discriminate. }
  destruct (_handle_named_color names translate_hex tag) as [[[c b]|]|];
    simpl in H; try discriminate.
  { inversion H; discriminate. }
  destruct (_handle_color translate_hex tag) as [[[c b]|]|];
    simpl in H; try discriminate.
  inversion H; discriminate.
Qed.

(** When no tag fails, the first tag of a group gives a tag token with the
    span of the group. *)
Lemma tags_loop_first_token :
  forall names translate_hex s e tags,
    raised (tags_loop names translate_hex s e tags) = None ->
    tags <> [] ->
    exists t,
      In t (yielded (tags_loop names translate_hex s e tags))
      /\ code t <> None /\ start t = s /\ end_ t = e.
Proof.
  intros names translate_hex s e [|tag tags] Hr Hne; [congruence|].
  cbn [tags_loop] in *.
  destruct (tag_token names translate_hex s e tag) as [t|err] eqn:Ht;
    [|discriminate].
  exists t. split; [left; reflexivity|].
  split; [exact (tag_token_code _ _ _ _ _ _ Ht)|].
  exact (tag_token_span _ _ _ _ _ _ Ht).
Qed.

(** When the text is accepted, every group that is not escaped has a tag
    token, with the span of the group. *)
Lemma tokenize_markup_loop_tag_tokens :
  forall names translate_hex text matches position span,
    raised (tokenize_markup_loop names translate_hex text matches
              position span) = None ->
    forall st en whole escapes tag_text,
      In (st, en, (whole, escapes, tag_text)) matches ->
      List.length escapes mod 2 = 0 ->
      Py.split_ws tag_text <> [] ->
      exists t,
        In t (yielded (tokenize_markup_loop names translate_hex text matches
                         position span))
        /\ code t <> None
        /\ start t = st + List.length escapes /\ end_ t = en.
Proof.
  intros names translate_hex text matches.
  induction matches as [|[[st0 en0] [[whole0 escapes0] tag_text0]] matches IH];
    intros position span Hr st en whole escapes tag_text Hin Heven Htags;
    [destruct Hin|].
  cbn [tokenize_markup_loop] in Hr |- *.
  pose proof (Nat.div_mod_eq (List.length escapes0) 2) as Hdiv.
  assert (Hrest : forall (pre : list Token) s0,
             In (st, en, (whole, escapes, tag_text)) matches ->
             raised (tokenize_markup_loop names translate_hex text matches
                       en0 (Some (s0, en0))) = None ->
             exists t,
               In t (pre ++ yielded (tokenize_markup_loop names translate_hex
                                       text matches en0 (Some (s0, en0))))
               /\ code t <> None
               /\ start t = st + List.length escapes /\ end_ t = en).
  { intros pre s0 Hin' Hr'.
    destruct (IH _ _ Hr' _ _ _ _ _ Hin' Heven Htags) as [t [Ht Hrest]].
    exists t. split; [apply in_or_app; right; exact Ht|exact Hrest]. }
  assert (Hodd : (0 <? List.length escapes0 mod 2) = true ->
                 (st, en, (whole, escapes, tag_text))
                 <> (st0, en0, (whole0, escapes0, tag_text0))).
  { intros He Heq. injection Heq as -> -> -> -> ->.
    apply Nat.ltb_lt in He. lia. }
  assert (Hstart : (if 0 <? List.length escapes0 / 2
                    then st0 + List.length escapes0 / 2 * 2
                    else st0)
                   = st0 + 2 * (List.length escapes0 / 2)).
  { destruct (0 <? List.length escapes0 / 2) eqn:Hb; [lia|].
    apply Nat.ltb_ge in Hb. lia. }
  destruct (0 <? List.length escapes0 / 2) eqn:Hb;
    destruct (0 <? List.length escapes0 mod 2) eqn:He;
    unfold yield in Hr |- *; cbn [raised yielded] in Hr |- *.
  all: destruct Hin as [Heq|Hin];
    [try (exfalso; exact (Hodd eq_refl (eq_sym Heq)))|].
  all: try (now apply Hrest).
  all: match type of Hr with
       | context [tags_loop ?n ?th ?s ?e ?tags] =>
           destruct (raised (tags_loop n th s e tags)) as [err|] eqn:Hraised;
           cbn [raised yielded] in Hr |- *;
           [rewrite Hraised in Hr; discriminate|]
       end.
  all: try (rewrite app_assoc; now apply Hrest).
  all: injection Heq as <- <- <- <- <-.
  all: match type of Hraised with
       | raised (tags_loop ?n ?th ?s ?e ?tags) = None =>
           destruct (tags_loop_first_token n th s e tags Hraised Htags)
             as [t [Ht [Hc [Hs Hen]]]];
           exists t;
           split; [apply in_or_app; right; apply in_or_app; left; exact Ht|];
           split; [exact Hc|]; split; [lia|exact Hen]
       end.
Qed.

(** Every tag token carries the span of a group that is not escaped. *)
Lemma tokenize_markup_loop_tag_token_group :
  forall names translate_hex text matches position span t,
    In t (yielded (tokenize_markup_loop names translate_hex text matches
                     position span)) ->
    code t <> None ->
    exists st whole escapes tag_text,
      In (st, end_ t, (whole, escapes, tag_text)) matches
      /\ List.length escapes mod 2 = 0
      /\ start t = st + List.length escapes.
Proof.
  intros names translate_hex text matches.
  induction matches as [|[[st en] [[whole escapes] tag_text]] matches IH];
    intros position span t Hin Hcode.
  - cbn [tokenize_markup_loop] in Hin.
    destruct (position <? List.length text); [|destruct Hin].
    destruct span as [[s e]|]; [|destruct Hin].
    destruct Hin as [<-|[]]. simpl in Hcode. congruence.
  - destruct (tokenize_markup_loop_step names translate_hex text st en whole
                escapes tag_text matches position span)
      as [first [second [tail [Heq [H1 [H2 Htail]]]]]].
    rewrite Heq in Hin. clear Heq.
    rewrite Forall_forall in H1, H2.
    pose proof (Nat.div_mod_eq (List.length escapes) 2) as Hdiv.
    apply in_app_or in Hin. destruct Hin as [Hin|Hin];
      [apply in_app_or in Hin; destruct Hin as [Hin|Hin]|].
    + destruct (H1 t Hin) as [_ [_ Hc]]. congruence.
    + destruct (H2 t Hin) as [Hs [He Hc]]. specialize (Hc Hcode).
      exists st, whole, escapes, tag_text.
      split; [left; rewrite He; reflexivity|]. split; lia.
    + destruct Htail as [->| ->]; [destruct Hin|].
      destruct (IH _ _ _ Hin Hcode) as [a [b [c [d [Hm Hrest]]]]].
      exists a, b, c, d. split; [right; exact Hm|exact Hrest].
Qed.

(** C3, as stated, fails: ["ab[bold]"] is accepted, and no token covers its
    first character. *)
Lemma spans_partition_counterexample :
  let text := lit "ab[bold]" in
  let tokens := tokenize_markup docstring_names spec_translate_hex text in
  raised tokens = None /\ ~ spans_partition text (yielded tokens).
Proof.
  intros text tokens. split; [reflexivity|].
  intros H. specialize (H 0). 
  assert (Hlen : 0 < List.length text) by (vm_compute; lia).
  destruct (H Hlen) as [[t [Hin [_ [Hcov _]]]]|[t [Hin [_ [Hcov _]]]]];
    vm_compute in Hin;
    repeat (destruct Hin as [<-|Hin]; [unfold covers in Hcov; simpl in Hcov; lia|]);
    exact Hin.
Qed.

(** C3, amended: the spans do not partition the text.  For every markup
    string, and so for every one that is accepted, each token carries the
    span of a bracket group of the text: a tag token that of its own group,
    from the opening to the first closing bracket; a plain token that of the
    group next to it, with the backslashes before the group that were not
    halved away.  Every span lies in the text, and of two tokens the earlier
    one carries the span of the same group as the later one, or of a group
    that ends before the later one's starts.  What holds of the partition
    is its half about the tags: a tag token covers only positions of a
    bracket group that is not escaped, and when the text is accepted every
    position of such a group lies inside exactly one tag token's span. *)
Theorem token_spans_are_group_spans :
  forall names translate_hex text,
    let tokens := yielded (tokenize_markup names translate_hex text) in
    Forall (group_span text) tokens
    /\ ForallOrdPairs follows tokens
    /\ (forall t i,
           In t tokens -> code t <> None -> covers t i ->
           in_tag_group text i)
    /\ (raised (tokenize_markup names translate_hex text) = None ->
        forall i, in_tag_group text i -> in_one_tag_span tokens i).
Proof.
  intros names translate_hex text tokens. subst tokens.
  unfold tokenize_markup.
  pose proof (finditer_matches_in Re.RE_TAGS RE_TAGS_length text) as Hin.
  assert (Hgroup : forall t,
             In t (yielded (tokenize_markup_loop names translate_hex text
                              (Re.finditer Re.RE_TAGS text) 0 None)) ->
             code t <> None ->
             exists tag_text, tag_group text (start t) (end_ t) tag_text).
  { intros t Ht Hc.
    destruct (tokenize_markup_loop_tag_token_group _ _ _ _ _ _ _ Ht Hc)
      as [st [whole [escapes [tag_text [Hm [He Hs]]]]]].
    exists tag_text, st, whole, escapes. auto. }
  split; [|split; [|split]].
  - apply tokenize_markup_loop_group_span; [exact Hin|].
    intros s e H. discriminate.
  - apply tokenize_markup_loop_ordered. exact Hin.
  - intros t i Ht Hc Hcov. destruct (Hgroup t Ht Hc) as [tag_text Hg].
    exists (start t), (end_ t), tag_text. split; [exact Hg|exact Hcov].
  - intros Hr i [lo [hi [tag_text [Hg Hi]]]].
    destruct (tag_group_slice _ _ _ _ Hg) as [_ [_ [_ Htags]]].
    destruct Hg as [st [whole [escapes [Hm [He ->]]]]].
    destruct (tokenize_markup_loop_tag_tokens _ _ _ _ _ _ Hr _ _ _ _ _
                Hm He Htags) as [t [Ht [Hc [Hs Hen]]]].
    exists t. split; [exact Ht|]. split; [exact Hc|].
    split; [unfold covers; lia|].
    intros t' Ht' Hc' Hcov'.
    destruct (Hgroup t' Ht' Hc') as [tag_text' [st' [whole' [escapes' H']]]].
    destruct H' as [Hm' [_ Hs']]. unfold covers in Hcov'.
    assert (Heq : (st, hi, (whole, escapes, tag_text))
                  = (st', end_ t', (whole', escapes', tag_text'))).
    { apply (matches_in_disjoint _ _ _ _ _ _ _ _ _ _ _ i Hin Hm Hm'); lia. }
    injection Heq as -> <- _ <- _.
    rewrite Hs, Hs', Hen. reflexivity.
Qed.

(** [token_spans_are_group_spans] at the markup ["ab[bold]cd"] and the
    position 3 of its group. *)
Lemma token_spans_are_group_spans_witness :
  let text := lit "ab[bold]cd" in
  let tokens :=
    yielded (tokenize_markup docstring_names spec_translate_hex text) in
  in_tag_group text 3 /\ in_one_tag_span tokens 3.
Proof.
  intros text tokens.
  assert (Hin : in_tag_group text 3).
  { exists 2, 8, (lit "bold"). split; [|simpl; lia].
    exists 2, (lit "[bold]"), []. split; [left; reflexivity|].
    split; reflexivity. }
  split; [exact Hin|].
  exact (proj2 (proj2 (proj2 (token_spans_are_group_spans
                                docstring_names spec_translate_hex text)))
           eq_refl 3 Hin).
Defined.

(** *** What raises *)

(** The color resolvers raise no [SyntaxError] of their own. *)
Lemma handle_color_no_syntax_error :
  forall translate_hex tag msg,
    _handle_color translate_hex tag <> Raise (SyntaxError msg).
Proof.
  intros translate_hex tag msg. unfold _handle_color.
  destruct (negb (forallb _ tag)); [discriminate|].
  destruct (Py.startswith tag (lit "@")); cbv beta iota zeta;
    match goal with
    | |- context [Py.startswith ?b (lit "#")] =>
        destruct (Py.startswith b (lit "#"));
        [destruct (translate_hex b) as [[[r g] b']|]|]
    end; simpl; discriminate.
Qed.

Lemma handle_named_color_no_syntax_error :
  forall names translate_hex tag msg,
    _handle_named_color names translate_hex tag <> Raise (SyntaxError msg).
Proof.
  intros names translate_hex tag msg. unfold _handle_named_color.
  destruct (negb (dict_mem names (Py.lstrip tag "@"))); [discriminate|].
  destruct (Py.startswith tag (lit "@")); cbv beta iota zeta;
    match goal with
    | |- context [dict_get names ?k] => destruct (dict_get names k)
    end; try discriminate; apply handle_color_no_syntax_error.
Qed.

(** A tag raises [SyntaxError] only when no resolver knows it, and the
    error names that tag. *)
Lemma tag_token_syntax_error :
  forall names translate_hex s e tag msg,
    tag_token names translate_hex s e tag = Raise (SyntaxError msg) ->
    msg = TagNotRecognized tag
    /\ Py.list_index NAMES tag = None
    /\ dict_get UNSET_MAP tag = None
    /\ _handle_named_color names translate_hex tag = Ok None
    /\ _handle_color translate_hex tag = Ok None.
Proof.
  intros names translate_hex s e tag msg H. unfold tag_token in H.
  destruct (Py.list_index NAMES tag); [discriminate|].
  destruct (dict_get UNSET_MAP tag); [discriminate|].
  destruct (_handle_named_color names translate_hex tag)
    as [[[c b]|]|err] eqn:Hnamed; simpl in H; try discriminate.
  - destruct (_handle_color translate_hex tag) as [[[c b]|]|err] eqn:Hcolor;
      simpl in H; try discriminate.
    + injection H as <-. auto.
    + injection H as ->. exfalso.
      exact (handle_color_no_syntax_error _ _ _ Hcolor).
  - injection H as ->. exfalso.
    exact (handle_named_color_no_syntax_error _ _ _ _ Hnamed).
Qed.

Lemma tags_loop_syntax_error :
  forall names translate_hex s e tags msg,
    raised (tags_loop names translate_hex s e tags)
    = Some (SyntaxError msg) ->
    exists tag,
      In tag tags
      /\ tag_token names translate_hex s e tag = Raise (SyntaxError msg).
Proof.
  intros names translate_hex s e tags msg.
  induction tags as [|tag tags IH]; simpl; intros H; [discriminate|].
  destruct (tag_token names translate_hex s e tag) eqn:Htag; simpl in H.
  - destruct (IH H) as [tag' [Hin Htag']]. exists tag'. auto.
  - injection H as ->. exists tag. auto.
Qed.

Lemma tokenize_markup_loop_syntax_error :
  forall names translate_hex text matches position span msg,
    raised (tokenize_markup_loop names translate_hex text matches
              position span) = Some (SyntaxError msg) ->
    exists start end_ whole escapes tag_text st tag,
      In (start, end_, (whole, escapes, tag_text)) matches
      /\ List.length escapes mod 2 = 0
      /\ In tag (Py.split_ws tag_text)
      /\ tag_token names translate_hex st end_ tag = Raise (SyntaxError msg).
Proof.
  intros names translate_hex text matches.
  induction matches as [|[[st en] [[whole escapes] tag_text]] matches IH];
    intros position span msg H; cbn [tokenize_markup_loop] in H.
  - destruct (position <? List.length text); [|discriminate].
    destruct span as [[s e]|]; discriminate.
  - assert (Hrest : forall position span,
               raised (tokenize_markup_loop names translate_hex text matches
                         position span) = Some (SyntaxError msg) ->
               exists start end_ whole0 escapes0 tag_text0 st0 tag,
                 In (start, end_, (whole0, escapes0, tag_text0))
                   ((st, en, (whole, escapes, tag_text)) :: matches)
                 /\ List.length escapes0 mod 2 = 0
                 /\ In tag (Py.split_ws tag_text0)
                 /\ tag_token names translate_hex st0 end_ tag
                    = Raise (SyntaxError msg)).
    { intros p sp Hr.
      destruct (IH p sp msg Hr) as [a [b [c [d [f [g [h [Hin Hr']]]]]]]].
      exists a, b, c, d, f, g, h. split; [right; exact Hin|exact Hr']. }
    destruct (0 <? List.length escapes / 2);
      destruct (0 <? List.length escapes mod 2) eqn:He;
      unfold yield in H; cbn [raised] in H;
      try (apply Hrest in H; exact H);
      apply Nat.ltb_ge in He;
      match type of H with
      | context [tags_loop ?n ?th ?s ?e ?tags] =>
          destruct (raised (tags_loop n th s e tags)) as [err|] eqn:Hraised;
          cbn [raised] in H;
          [ rewrite Hraised in H; rewrite H in Hraised;
            destruct (tags_loop_syntax_error n th s e tags msg Hraised)
              as [tag [Hin Htag]];
            exists st, en, whole, escapes, tag_text, s, tag;
            split; [left; reflexivity|];
            split; [lia|]; split; [exact Hin|exact Htag]
          | apply Hrest in H; exact H ]
      end.
Qed.

(** [tokenize_markup] raises [SyntaxError] only for a tag of the markup: a
    word of a bracket group of the text that is not escaped, when it is no
    style name, no unset name, no named color and no color expression; and
    the error names that tag. *)
Lemma tokenize_markup_syntax_error :
  forall names translate_hex text msg,
    raised (tokenize_markup names translate_hex text)
    = Some (SyntaxError msg) ->
    exists lo hi tag_text tag,
      tag_group text lo hi tag_text
      /\ Py.slice text lo hi = lit "[" ++ tag_text ++ lit "]"
      /\ In tag (Py.split_ws tag_text)
      /\ msg = TagNotRecognized tag
      /\ Py.list_index NAMES tag = None
      /\ dict_get UNSET_MAP tag = None
      /\ _handle_named_color names translate_hex tag = Ok None
      /\ _handle_color translate_hex tag = Ok None.
Proof.
  intros names translate_hex text msg H.
  destruct (tokenize_markup_loop_syntax_error _ _ _ _ _ _ _ H)
    as [st [en [whole [escapes [tag_text [st' [tag [Hm [He [Hin Htag]]]]]]]]]].
  assert (Hg : tag_group text (st + List.length escapes) en tag_text).
  { exists st, whole, escapes. auto. }
  exists (st + List.length escapes), en, tag_text, tag.
  split; [exact Hg|].
  split; [exact (proj1 (proj2 (tag_group_slice _ _ _ _ Hg)))|].
  split; [exact Hin|].
  eapply tag_token_syntax_error. exact Htag.
Qed.

(** C7: a string without a bracket group is no unrecognized tag, and
    [tokenize_markup] raises on it all the same: the text after the last
    match is yielded with the locals [start] and [end], which only a match
    binds.  So does [markup_to_ansi].  ([tokenize_ansi] sets both to zero
    before its loop.)  Nor is [SyntaxError] the only error of [ansi_to_markup]
    and of the tags: an SGR code that is no index of [NAMES], such as 31,
    raises [IndexError], and a doubled [@] before a color name raises
    [KeyError].  The two errors that the claim lists are raised as it says. *)
Theorem errors_beyond_syntax_error :
  (forall names translate_hex,
      tokenize_markup names translate_hex (lit "hi")
      = mkRun [] (Some (UnboundLocalError (lit "start")))
      /\ markup_to_ansi names translate_hex (lit "hi")
         = Raise (UnboundLocalError (lit "start")))
  /\ (forall names,
         ansi_to_markup names (Re.ESC :: lit "[31m") = Raise IndexError)
  /\ raised (tokenize_markup docstring_names spec_translate_hex
               (lit "[@@red]"))
     = Some (KeyError (lit "@red"))
  /\ tokenize_markup docstring_names spec_translate_hex
       (lit "[notacolor notatag]")
     = mkRun [] (Some (SyntaxError (TagNotRecognized (lit "notacolor"))))
  /\ (forall names,
         ansi_to_markup names (Re.ESC :: lit "[38;5m")
         = Raise (SyntaxError (InvalidAnsiCode (lit "38;5")))).
Proof.
  repeat split; reflexivity.
Qed.

(** *** The round trip *)

(** The round trip of the module's docstring. *)
Example docstring_round_trip :
  round_trip docstring_names spec_translate_hex
    (lit "[@141 60 bold italic]Hello[/italic underline inverse]There!")
  = Ok (lit "[@141 60 bold italic]Hello[/italic underline inverse]There![/]").
Proof.
  reflexivity.
Qed.

(** C1: the round trip does not keep what ["[1;2;3]x"] resolves to.  The
    group holds the one RGB color 1;2;3, with code ["38;2;1;2;3"]; [to_name]
    looks up the first component in the named-color table whatever the
    selector is, finds [red], and the markup that comes back resolves to the
    palette color ["38;5;1"].  And on markup without any bracket group, such
    as ["hi"], [markup_to_ansi] raises, so there is no round trip at all. *)
Theorem round_trip_changes_rgb :
  round_trip docstring_names spec_translate_hex (lit "[1;2;3]x")
  = Ok (lit "[red]x[/]")
  /\ resolved docstring_names spec_translate_hex (lit "[1;2;3]x")
     = [sgr_code "38;2;1;2;3"; plain_text "x"]
  /\ resolved docstring_names spec_translate_hex (lit "[red]x[/]")
     = [sgr_code "38;5;1"; plain_text "x"; sgr_code "0"]
  /\ (forall names translate_hex,
         round_trip names translate_hex (lit "hi")
         = Raise (UnboundLocalError (lit "start"))).
Proof.
  repeat split; reflexivity.
Qed.

(** *** [escape_ansi] *)

Lemma escape_char_printable :
  forall c, Forall printable (escape_char c).
Proof.
  intros c.
  assert (H : forallb (fun x => (32 <=? nat_of_ascii x)
                                && (nat_of_ascii x <? 127))
                (escape_char c) = true)
    by (destruct c as [[] [] [] [] [] [] [] []]; reflexivity).
  rewrite forallb_forall in H. apply Forall_forall. intros x Hx.
  apply H in Hx. apply andb_prop in Hx. destruct Hx as [H1 H2].
  apply Nat.leb_le in H1. apply Nat.ltb_lt in H2.
  unfold printable. lia.
Qed.

(** What [escape_ansi] returns can be displayed: every character of it is
    printable ASCII, so it holds no escape character and no other control
    character. *)
Theorem escape_ansi_printable :
  forall text,
    Forall printable (escape_ansi text) /\ ~ In Re.ESC (escape_ansi text).
Proof.
  intros text.
  assert (H : Forall printable (escape_ansi text)).
  { unfold escape_ansi. induction text as [|c text IH]; simpl.
    - constructor.
    - apply Forall_app. split; [apply escape_char_printable|exact IH]. }
  split; [exact H|].
  intros Hin. rewrite Forall_forall in H. apply H in Hin.
  unfold printable in Hin. vm_compute in Hin. lia.
Qed.

Lemma unescape_head_escape_char :
  forall c rest, unescape_head (escape_char c ++ rest) = Some (c, rest).
Proof.
  intros [[] [] [] [] [] [] [] []] rest; reflexivity.
Qed.

(** [escape_ansi] loses nothing: two texts with the same escaped form are
    the same text. *)
Theorem escape_ansi_injective :
  forall a b, escape_ansi a = escape_ansi b -> a = b.
Proof.
  unfold escape_ansi.
  induction a as [|c a IH]; intros [|d b] H; simpl in H.
  - reflexivity.
  - pose proof (unescape_head_escape_char d (flat_map escape_char b)) as Hd.
    rewrite <- H in Hd. discriminate.
  - pose proof (unescape_head_escape_char c (flat_map escape_char a)) as Hc.
    rewrite H in Hc. discriminate.
  - pose proof (unescape_head_escape_char c (flat_map escape_char a)) as Hc.
    pose proof (unescape_head_escape_char d (flat_map escape_char b)) as Hd.
    rewrite H in Hc. rewrite Hc in Hd. injection Hd as -> Hrest.
    f_equal. apply IH. exact Hrest.
Qed.

(** [escape_ansi_injective] at the reset sequence. *)
Lemma escape_ansi_injective_witness :
  escape_ansi (Re.ESC :: lit "[0m") = lit "\x1b[0m"
  /\ Re.ESC :: lit "[0m" = Re.ESC :: lit "[0m".
Proof.
  split; [reflexivity|].
  apply (escape_ansi_injective (Re.ESC :: lit "[0m") (Re.ESC :: lit "[0m")).
  reflexivity.
Defined.

(** *** What [tokenize_markup] and [markup_to_ansi] give *)

(** Every token that [tokenize_markup] yields, on every input and also
    before an exception, carries either plain text or a code, never both
    and never neither. *)
Theorem tokenize_markup_tokens_exactly_one :
  forall names translate_hex text,
    Forall exactly_one (yielded (tokenize_markup names translate_hex text)).
Proof.
  intros names translate_hex text. unfold tokenize_markup.
  apply tokenize_markup_loop_exactly_one.
Qed.

Lemma to_sequence_exactly_one :
  forall t, exactly_one t -> to_sequence t = Ok (sequence t).
Proof.
  intros t [[Hp Hc]|[Hp Hc]]; unfold to_sequence, sequence.
  - rewrite Hc. destruct (plain t); [reflexivity|contradiction].
  - destruct (code t); [reflexivity|contradiction].
Qed.

Lemma to_sequence_loop_concat :
  forall tokens ansi,
    Forall exactly_one tokens ->
    to_sequence_loop tokens ansi = Ok (ansi ++ List.concat (map sequence tokens)).
Proof.
  induction tokens as [|t tokens IH]; intros ansi H; simpl.
  - rewrite app_nil_r. reflexivity.
  - inversion H as [|t0 l Ht Hrest]; subst.
    rewrite (to_sequence_exactly_one t Ht). simpl.
    rewrite (IH _ Hrest), <- app_assoc. reflexivity.
Qed.

(** [markup_to_ansi] fails exactly when [tokenize_markup] does, with the
    same exception, and never on the assertion of [to_sequence]; otherwise
    it returns the sequences of the tokens, one after the other, terminated
    by the reset sequence. *)
Theorem markup_to_ansi_of_tokens :
  forall names translate_hex markup,
    markup_to_ansi names translate_hex markup
    = match raised (tokenize_markup names translate_hex markup) with
      | Some e => Raise e
      | None =>
          Ok (terminate
                (List.concat (map sequence
                           (yielded (tokenize_markup names translate_hex
                                       markup)))))
      end.
Proof.
  intros names translate_hex markup. unfold markup_to_ansi.
  rewrite to_sequence_loop_concat; [reflexivity|].
  apply tokenize_markup_loop_exactly_one.
Qed.

(** *** The exceptions of [tokenize_markup] *)

Lemma handle_color_raises :
  forall translate_hex tag e,
    _handle_color translate_hex tag = Raise e -> e = ExternalError.
Proof.
  intros translate_hex tag e. unfold _handle_color.
  destruct (negb (forallb _ tag)); [discriminate|].
  destruct (Py.startswith tag (lit "@")); cbv beta iota zeta;
    match goal with
    | |- context [Py.startswith ?b (lit "#")] =>
        destruct (Py.startswith b (lit "#"));
        [destruct (translate_hex b) as [[[r g] b']|]|]
    end; simpl; intros H; try discriminate; congruence.
Qed.

Lemma handle_named_color_raises :
  forall names translate_hex tag e,
    _handle_named_color names translate_hex tag = Raise e ->
    e = ExternalError \/ exists key, e = KeyError key.
Proof.
  intros names translate_hex tag e. unfold _handle_named_color.
  destruct (negb (dict_mem names (Py.lstrip tag "@"))); [discriminate|].
  destruct (Py.startswith tag (lit "@")); cbv beta iota zeta;
    match goal with
    | |- context [dict_get names ?k] => destruct (dict_get names k)
    end; intros H;
    try (left; eapply handle_color_raises; exact H);
    injection H as <-; right; eexists; reflexivity.
Qed.

Lemma tag_token_raises :
  forall names translate_hex s e tag err,
    tag_token names translate_hex s e tag = Raise err ->
    tag_error err.
Proof.
  intros names translate_hex s e tag err H. unfold tag_token in H.
  destruct (Py.list_index NAMES tag); [discriminate|].
  destruct (dict_get UNSET_MAP tag); [discriminate|].
  destruct (_handle_named_color names translate_hex tag)
    as [[[c b]|]|err'] eqn:Hnamed; simpl in H; try discriminate.
  - destruct (_handle_color translate_hex tag) as [[[c b]|]|err'] eqn:Hcolor;
      simpl in H; try discriminate.
    + injection H as <-. right. right. exists tag. reflexivity.
    + injection H as <-. left. eapply handle_color_raises. exact Hcolor.
  - injection H as <-.
    destruct (handle_named_color_raises _ _ _ _ Hnamed) as [->|Hkey].
    + left. reflexivity.
    + right. left. exact Hkey.
Qed.

Lemma tags_loop_raises :
  forall names translate_hex s e tags err,
    raised (tags_loop names translate_hex s e tags) = Some err ->
    tag_error err.
Proof.
  intros names translate_hex s e tags err.
  induction tags as [|tag tags IH]; simpl; intros H; [discriminate|].
  destruct (tag_token names translate_hex s e tag) eqn:Htag; simpl in H.
  - exact (IH H).
  - injection H as <-. eapply tag_token_raises. exact Htag.
Qed.

(** Once a match has bound [start] and [end], the loop raises only what a
    tag raises. *)
Lemma tokenize_markup_loop_raises :
  forall names translate_hex text matches position span err,
    raised (tokenize_markup_loop names translate_hex text matches
              position span) = Some err ->
    tag_error err \/ (matches = [] /\ span = None).
Proof.
  intros names translate_hex text matches.
  induction matches as [|[[st en] [[whole escapes] tag_text]] matches IH];
    intros position span err H; cbn [tokenize_markup_loop] in H.
  - destruct (position <? List.length text); [|discriminate].
    destruct span as [[s e]|]; [discriminate|]. right. auto.
  - left.
    assert (Hrest : forall position s e,
               raised (tokenize_markup_loop names translate_hex text matches
                         position (Some (s, e))) = Some err ->
               tag_error err).
    { intros p s e Hr. destruct (IH p (Some (s, e)) err Hr) as [Ht|[_ Hs]];
        [exact Ht|discriminate]. }
    destruct (0 <? List.length escapes / 2);
      destruct (0 <? List.length escapes mod 2);
      unfold yield in H; cbn [raised] in H;
      try (eapply Hrest; exact H);
      match type of H with
      | context [tags_loop ?n ?th ?s ?e ?tags] =>
          destruct (raised (tags_loop n th s e tags)) as [err'|] eqn:Hraised;
          cbn [raised] in H;
          [ rewrite Hraised in H; injection H as <-;
            eapply tags_loop_raises; exact Hraised
          | eapply Hrest; exact H ]
      end.
Qed.

Lemma RE_TAGS_needs_bracket :
  forall s g len, Re.RE_TAGS s = Some (g, len) -> In "["%char s.
Proof.
  intros s [[whole escapes] tag_text] len H.
  destruct (RE_TAGS_shape _ _ _ _ _ H) as [_ [_ [_ [rest ->]]]].
  apply in_or_app. right. left. reflexivity.
Qed.

Lemma finditer_RE_TAGS_needs_bracket :
  forall text, ~ In "["%char text -> Re.finditer Re.RE_TAGS text = [].
Proof.
  intros text Hno.
  pose proof (finditer_matches_in Re.RE_TAGS RE_TAGS_length text) as Hin.
  destruct (Re.finditer Re.RE_TAGS text) as [|[[st en] g] ms]; [reflexivity|].
  destruct Hin as [_ [_ [Hre _]]]. exfalso. apply Hno.
  apply RE_TAGS_needs_bracket in Hre.
  rewrite <- (firstn_skipn st text). apply in_or_app. right. exact Hre.
Qed.

(** [tokenize_markup] raises only what a tag raises (the error of the hex
    conversion, [KeyError], or [SyntaxError] for an unrecognized tag), or
    [UnboundLocalError] for [start]; and that last one only when the text
    is not empty and holds no match of [RE_TAGS]. *)
Theorem tokenize_markup_exceptions :
  forall names translate_hex text err,
    raised (tokenize_markup names translate_hex text) = Some err ->
    (tag_error err /\ Re.finditer Re.RE_TAGS text <> [])
    \/ (err = UnboundLocalError (lit "start")
        /\ Re.finditer Re.RE_TAGS text = [] /\ text <> []).
Proof.
  intros names translate_hex text err H. unfold tokenize_markup in H.
  destruct (Re.finditer Re.RE_TAGS text) as [|m ms] eqn:Hms.
  - right. cbn [tokenize_markup_loop] in H.
    destruct text as [|c text]; [discriminate|].
    simpl in H. injection H as <-. repeat split. discriminate.
  - left. split; [|discriminate].
    destruct (tokenize_markup_loop_raises _ _ _ _ _ _ _ H) as [Ht|[Hnil _]];
      [exact Ht|discriminate].
Qed.

(** [tokenize_markup_exceptions] at the markup ["[@@red]"]. *)
Lemma tokenize_markup_exceptions_witness :
  raised (tokenize_markup docstring_names spec_translate_hex (lit "[@@red]"))
  = Some (KeyError (lit "@red"))
  /\ ((tag_error (KeyError (lit "@red"))
       /\ Re.finditer Re.RE_TAGS (lit "[@@red]") <> [])
      \/ (KeyError (lit "@red") = UnboundLocalError (lit "start")
          /\ Re.finditer Re.RE_TAGS (lit "[@@red]") = []
          /\ lit "[@@red]" <> [])).
Proof.
  split; [reflexivity|].
  apply (tokenize_markup_exceptions docstring_names spec_translate_hex
           (lit "[@@red]")).
  reflexivity.
Defined.

(** Markup that is not empty and holds no opening bracket is rejected: no
    token is yielded, and [tokenize_markup] and [markup_to_ansi] raise
    [UnboundLocalError]. *)
Theorem markup_without_group_is_rejected :
  forall names translate_hex text,
    text <> [] ->
    ~ In "["%char text ->
    tokenize_markup names translate_hex text
    = mkRun [] (Some (UnboundLocalError (lit "start")))
    /\ markup_to_ansi names translate_hex text
       = Raise (UnboundLocalError (lit "start")).
Proof.
  intros names translate_hex text Hne Hno.
  assert (H : tokenize_markup names translate_hex text
              = mkRun [] (Some (UnboundLocalError (lit "start")))).
  { unfold tokenize_markup.
    rewrite (finditer_RE_TAGS_needs_bracket text Hno).
    destruct text as [|c text]; [contradiction|reflexivity]. }
  split; [exact H|].
  unfold markup_to_ansi. rewrite H. reflexivity.
Qed.

(** [markup_without_group_is_rejected] at the markup ["plain text"]. *)
Lemma markup_without_group_is_rejected_witness :
  tokenize_markup docstring_names spec_translate_hex (lit "plain text")
  = mkRun [] (Some (UnboundLocalError (lit "start")))
  /\ markup_to_ansi docstring_names spec_translate_hex (lit "plain text")
     = Raise (UnboundLocalError (lit "start")).
Proof.
  apply (markup_without_group_is_rejected docstring_names spec_translate_hex
           (lit "plain text")).
  - discriminate.
  - vm_compute. intros H.
    repeat (destruct H as [H|H]; [discriminate|]). exact H.
Defined.

(** [tokenize_markup_syntax_error] at the markup ["[notacolor notatag]"]. *)
Lemma tokenize_markup_syntax_error_witness :
  let text := lit "[notacolor notatag]" in
  exists lo hi tag_text tag,
    tag_group text lo hi tag_text
    /\ Py.slice text lo hi = lit "[" ++ tag_text ++ lit "]"
    /\ In tag (Py.split_ws tag_text)
    /\ TagNotRecognized (lit "notacolor") = TagNotRecognized tag
    /\ Py.list_index NAMES tag = None
    /\ dict_get UNSET_MAP tag = None
    /\ _handle_named_color docstring_names spec_translate_hex tag = Ok None
    /\ _handle_color spec_translate_hex tag = Ok None.
Proof.
  apply (tokenize_markup_syntax_error docstring_names spec_translate_hex
           (lit "[notacolor notatag]")).
  reflexivity.
Defined.

(** *** What [tokenize_ansi] and [ansi_to_markup] give *)

Lemma RE_ANSI_needs_escape :
  forall c s, c <> Re.ESC -> Re.RE_ANSI (c :: s) = None.
Proof.
  intros c s Hc. unfold Re.RE_ANSI.
  destruct s as [|c1 s]; [reflexivity|].
  destruct (Ascii.eqb c Re.ESC) eqn:H; [|reflexivity].
  apply Ascii.eqb_eq in H. contradiction.
Qed.

Lemma finditer_RE_ANSI_plain :
  forall u pos,
    ~ In Re.ESC u ->
    Re.finditer_from Re.RE_ANSI (u ++ reset) pos 0
    = [(pos + List.length u, pos + List.length u + 4, (Some (lit "0"), None))].
Proof.
  induction u as [|c u IH]; intros pos Hno.
  - simpl. rewrite Nat.add_0_r. reflexivity.
  - change ((c :: u) ++ reset) with (c :: (u ++ reset)).
    cbn [Re.finditer_from].
    rewrite RE_ANSI_needs_escape
      by (intros ->; apply Hno; left; reflexivity).
    rewrite IH by (intros H; apply Hno; right; exact H).
    simpl. repeat f_equal; lia.
Qed.

Lemma endswith_reset_escape :
  forall text, Py.endswith text reset = true -> In Re.ESC text.
Proof.
  intros text H. destruct (endswith_suffix _ _ H) as [body ->].
  apply in_or_app. right. left. reflexivity.
Qed.

(** Text without an escape character passes through: [tokenize_ansi] yields
    it as one plain token (none for the empty text) before the token of the
    reset it appends, and [ansi_to_markup] returns the text followed by
    ["[/]"]. *)
Theorem ansi_to_markup_of_plain_text :
  forall names text,
    ~ In Re.ESC text ->
    map content (tokenize_ansi text)
    = match text with
      | [] => [sgr_code "0"]
      | _ => [(Some text, None); sgr_code "0"]
      end
    /\ ansi_to_markup names text = Ok (text ++ lit "[/]").
Proof.
  intros names text Hno.
  assert (Htok :
            tokenize_ansi text
            = match text with
              | [] => [mkToken 0 4 None (Some (lit "0")) None]
              | _ =>
                  [mkToken (List.length text) (List.length text + 4)
                     (Some text) None None;
                   mkToken (List.length text) (List.length text + 4)
                     None (Some (lit "0")) None]
              end).
  { unfold tokenize_ansi.
    destruct (Py.endswith text reset) eqn:Hend.
    { exfalso. apply Hno. apply endswith_reset_escape. exact Hend. }
    cbn [negb]. unfold Re.finditer.
    change (Re.ESC :: lit "[0m") with reset.
    rewrite (finditer_RE_ANSI_plain text 0 Hno).
    destruct text as [|c text]; [reflexivity|].
    cbn [tokenize_ansi_loop Nat.add].
    replace (0 <? List.length (c :: text)) with true by reflexivity.
    cbn [Py.opt_str_eqb code negb app].
    replace (List.length (c :: text ++ reset))
      with (List.length (c :: text) + 4)
      by (simpl; rewrite length_app; simpl; lia).
    rewrite Nat.ltb_irrefl.
    unfold Py.slice. rewrite Nat.sub_0_r. cbn [skipn].
    change (c :: text ++ reset) with ((c :: text) ++ reset).
    rewrite firstn_app_exact by reflexivity. reflexivity. }
  split.
  - rewrite Htok. destruct text; reflexivity.
  - unfold ansi_to_markup. rewrite Htok.
    destruct text as [|c text]; [reflexivity|].
    cbn [ansi_to_markup_loop code plain to_name bind].
    reflexivity.
Qed.

(** [ansi_to_markup_of_plain_text] at the text ["hello"]. *)
Lemma ansi_to_markup_of_plain_text_witness :
  map content (tokenize_ansi (lit "hello"))
  = [(Some (lit "hello"), None); sgr_code "0"]
  /\ ansi_to_markup docstring_names (lit "hello") = Ok (lit "hello[/]").
Proof.
  apply (ansi_to_markup_of_plain_text docstring_names (lit "hello")).
  vm_compute. intros H.
  repeat (destruct H as [H|H]; [discriminate|]). exact H.
Defined.

(** The token stream of [tokenize_ansi] is never empty and never ends with
    plain text: its last token is a code token, so the branch that yields
    the text after the last match is never taken. *)
Theorem tokenize_ansi_last_token :
  forall text,
    tokenize_ansi text <> []
    /\ forall before t,
        tokenize_ansi text = before ++ [t] ->
        plain t = None /\ code t <> None.
Proof.
  intros text.
  destruct (tokenize_ansi_ends_with_code text) as [b [t [Heq Hcode]]].
  split.
  - rewrite Heq. intros H. destruct b; discriminate.
  - intros before t' H. rewrite Heq in H.
    apply app_inj_tail in H. destruct H as [_ <-]. exact Hcode.
Qed.

(** [tokenize_ansi_last_token] at the text ["hello"]. *)
Lemma tokenize_ansi_last_token_witness :
  let t := mkToken 5 9 None (Some (lit "0")) None in
  plain t = None /\ code t <> None.
Proof.
  intros t.
  apply (proj2 (tokenize_ansi_last_token (lit "hello"))
           [mkToken 5 9 (Some (lit "hello")) None None] t).
  reflexivity.
Defined.

(** Every token of the loop carries the span of a match and, unless it is
    plain text, the first group of that match; the text after the last match
    carries the span that the loop ended with. *)
Lemma tokenize_ansi_loop_tokens :
  forall text matches position start0 end0 previous t,
    In t (tokenize_ansi_loop text matches position start0 end0 previous) ->
    (plain t <> None /\ code t = None)
    \/ (plain t = None
        /\ exists st en osc, In (st, en, (code t, osc)) matches
                             /\ start t = st /\ end_ t = en).
Proof.
  intros text matches.
  induction matches as [|[[st en] [sgr osc]] matches IH];
    intros position start0 end0 previous t Hin;
    cbn [tokenize_ansi_loop] in Hin.
  - destruct (position <? List.length text); [|destruct Hin].
    destruct Hin as [<-|[]]. left. split; [discriminate|reflexivity].
  - assert (Hrest : forall p s e prev,
               In t (tokenize_ansi_loop text matches p s e prev) ->
               (plain t <> None /\ code t = None)
               \/ (plain t = None
                   /\ exists st0 en0 osc0,
                       In (st0, en0, (code t, osc0))
                         ((st, en, (sgr, osc)) :: matches)
                       /\ start t = st0 /\ end_ t = en0)).
    { intros p s e prev Hr.
      destruct (IH _ _ _ _ _ Hr) as [Hp|[Hp [a [b [d [Hi Hx]]]]]];
        [left; exact Hp|].
      right. split; [exact Hp|]. exists a, b, d.
      split; [right; exact Hi|exact Hx]. }
    assert (Hhere :
              let x := mkToken st en None sgr None in
              (plain x <> None /\ code x = None)
              \/ (plain x = None
                  /\ exists st0 en0 osc0,
                      In (st0, en0, (code x, osc0))
                        ((st, en, (sgr, osc)) :: matches)
                      /\ start x = st0 /\ end_ x = en0)).
    { right. split; [reflexivity|]. exists st, en, osc.
      split; [left; reflexivity|split; reflexivity]. }
    destruct (position <? st);
      [|destruct previous as [q|]];
      cbn [Py.opt_str_eqb code negb] in Hin;
      repeat match type of Hin with
        | context [if ?b then _ else _] => destruct b
        end;
      cbn [app In] in Hin;
      repeat match type of Hin with
        | _ \/ _ => destruct Hin as [Hin|Hin]
        end;
      match type of Hin with
      | In _ _ => eapply Hrest; exact Hin
      | False => destruct Hin
      | _ = _ =>
          subst t;
          first [exact Hhere | left; split; [discriminate|reflexivity]]
      end.
Qed.

Lemma RE_ANSI_length :
  forall s g len, Re.RE_ANSI s = Some (g, len) -> 0 < len <= List.length s.
Proof.
  intros s g len H.
  destruct (RE_ANSI_shape _ _ _ H)
    as [rest [[sgr [_ [Hs ->]]]|[osc [_ [Hs ->]]]]];
    apply (f_equal (@List.length ascii)) in Hs;
    repeat (rewrite length_app in Hs; simpl in Hs); lia.
Qed.

(** The span of a code token of [tokenize_ansi] lies in the text that was
    scanned (the input, terminated by the reset sequence) and is there the
    escape sequence [ESC [ code m] of the token. *)
Theorem ansi_code_token_span :
  forall text t c,
    In t (tokenize_ansi text) ->
    code t = Some c ->
    plain t = None
    /\ start t < end_ t <= List.length (with_reset text)
    /\ Py.slice (with_reset text) (start t) (end_ t)
       = Re.ESC :: lit "[" ++ c ++ lit "m".
Proof.
  intros text t c Hin Hc. unfold tokenize_ansi in Hin.
  fold (with_reset text) in Hin.
  destruct (tokenize_ansi_loop_tokens _ _ _ _ _ _ _ Hin)
    as [[_ Hnone]|[Hp [st [en [osc [Hm [Hs He]]]]]]]; [congruence|].
  split; [exact Hp|].
  pose proof (finditer_matches_in Re.RE_ANSI RE_ANSI_length (with_reset text))
    as Hall.
  destruct (matches_in_In _ _ _ _ _ _ _ _ Hall Hm) as [Hspan Hre].
  rewrite Hs, He. split; [exact Hspan|].
  rewrite Hc in Hre.
  destruct (RE_ANSI_shape _ _ _ Hre)
    as [rest [[sgr [Hg [Htext Hlen]]]|[osc' [Hg _]]]]; [|discriminate].
  injection Hg as <- _.
  unfold Py.slice. rewrite Htext. apply firstn_app_exact.
  rewrite Hlen. simpl. rewrite length_app. simpl. lia.
Qed.

(** [ansi_code_token_span] at [ESC[1m hi], whose reset token lies in the
    text after the reset sequence was appended. *)
Lemma ansi_code_token_span_witness :
  let text := Re.ESC :: lit "[1mhi" in
  let t := mkToken 6 10 None (Some (lit "0")) None in
  plain t = None
  /\ start t < end_ t <= List.length (with_reset text)
  /\ Py.slice (with_reset text) (start t) (end_ t)
     = Re.ESC :: lit "[" ++ lit "0" ++ lit "m".
Proof.
  intros text t.
  apply (ansi_code_token_span text t (lit "0")).
  - vm_compute. right. right. left. reflexivity.
  - reflexivity.
Defined.

(** What [to_name] raises, and for which token. *)
Lemma to_name_raises :
  forall names t e,
    to_name names t = Raise e ->
    plain t = None
    /\ ((e = AssertionError /\ code t = None)
        \/ exists c,
            code t = Some c
            /\ (e = ValueError
                \/ (e = IndexError /\ Py.isdigit c = true)
                \/ (e = SyntaxError (InvalidAnsiCode c)
                    /\ Py.isdigit c = false
                    /\ List.length (Py.split c ";"%char) < 3))).
Proof.
  intros names t e H. unfold to_name in H.
  destruct (plain t); [discriminate|]. split; [reflexivity|].
  destruct (code t) as [c|]; [|left; split; congruence].
  right. exists c. split; [reflexivity|].
  destruct (Py.isdigit c) eqn:Hd.
  - destruct (dict_key_of (Py.str_eqb c) UNSET_MAP); [discriminate|].
    destruct (Py.int c) as [i|]; [|left; congruence].
    destruct (Py.index NAMES i); [discriminate|].
    right. left. split; congruence.
  - cbv zeta in H.
    destruct (List.length (Py.split c ";") <? 3) eqn:Hlen.
    + right. right. apply Nat.ltb_lt in Hlen.
      split; [congruence|]. split; [reflexivity|exact Hlen].
    + destruct (Py.int (nth 2 (Py.split c ";") [])); [|left; congruence].
      destruct (dict_key_of _ names); discriminate.
Qed.

Lemma ansi_to_markup_loop_raises :
  forall names tokens markup in_attr current_bracket e,
    ansi_to_markup_loop names tokens markup in_attr current_bracket = Raise e ->
    exists t, In t tokens /\ to_name names t = Raise e.
Proof.
  intros names tokens.
  induction tokens as [|t tokens IH];
    intros markup in_attr bracket e H; cbn [ansi_to_markup_loop] in H.
  - discriminate.
  - destruct (code t) as [c|].
    + destruct (to_name names t) as [name|e'] eqn:Hname; simpl in H.
      * destruct (IH _ _ _ _ H) as [t' [Hin Ht']].
        exists t'. split; [right; exact Hin|exact Ht'].
      * injection H as <-. exists t. split; [left; reflexivity|exact Hname].
    + destruct in_attr;
        (destruct (to_name names t) as [name|e'] eqn:Hname; simpl in H;
         [ destruct (IH _ _ _ _ H) as [t' [Hin Ht']];
           exists t'; split; [right; exact Hin|exact Ht']
         | injection H as <-; exists t;
           split; [left; reflexivity|exact Hname] ]).
Qed.

(** [ansi_to_markup] fails only on a token without plain text: on the
    assertion of [to_name] when the token has no code either, with
    [ValueError] or [IndexError] on a code whose number [int] or [NAMES]
    rejects, and with [SyntaxError] only on a code that is not a digit
    string and has fewer than three fields; the error then names that code.
    It raises nothing else. *)
Theorem ansi_to_markup_exceptions :
  forall names text e,
    ansi_to_markup names text = Raise e ->
    exists t,
      In t (tokenize_ansi text)
      /\ plain t = None
      /\ ((e = AssertionError /\ code t = None)
          \/ exists c,
              code t = Some c
              /\ (e = ValueError
                  \/ (e = IndexError /\ Py.isdigit c = true)
                  \/ (e = SyntaxError (InvalidAnsiCode c)
                      /\ Py.isdigit c = false
                      /\ List.length (Py.split c ";"%char) < 3))).
Proof.
  intros names text e H. unfold ansi_to_markup in H.
  destruct (ansi_to_markup_loop_raises _ _ _ _ _ _ H) as [t [Hin Ht]].
  exists t. split; [exact Hin|]. eapply to_name_raises. exact Ht.
Qed.

(** [ansi_to_markup_exceptions] at [ESC[38;5m]. *)
Lemma ansi_to_markup_exceptions_witness :
  let text := Re.ESC :: lit "[38;5m" in
  let e := SyntaxError (InvalidAnsiCode (lit "38;5")) in
  ansi_to_markup docstring_names text = Raise e
  /\ exists t,
      In t (tokenize_ansi text)
      /\ plain t = None
      /\ ((e = AssertionError /\ code t = None)
          \/ exists c,
              code t = Some c
              /\ (e = ValueError
                  \/ (e = IndexError /\ Py.isdigit c = true)
                  \/ (e = SyntaxError (InvalidAnsiCode c)
                      /\ Py.isdigit c = false
                      /\ List.length (Py.split c ";"%char) < 3))).
Proof.
  intros text e. split; [reflexivity|].
  apply (ansi_to_markup_exceptions docstring_names text e). reflexivity.
Defined.

(** *** Decimal numbers and fields *)

Lemma string_of_uint_digits :
  forall d,
    Forall (fun c => Py.ascii_digit c = true)
      (lit (NilEmpty.string_of_uint d)).
Proof.
  induction d; simpl; constructor; try reflexivity; assumption.
Qed.

Lemma to_uint_not_nil : forall n, Nat.to_uint n <> Decimal.Nil.
Proof.
  intros n H.
  pose proof (DecimalNat.Unsigned.to_of (Nat.to_uint n)) as Hto.
  rewrite DecimalNat.Unsigned.of_to, H in Hto. discriminate.
Qed.

Lemma str_of_nat_digits :
  forall n,
    Forall (fun c => Py.ascii_digit c = true) (Py.str_of_nat n)
    /\ Py.str_of_nat n <> [].
Proof.
  intros n. unfold Py.str_of_nat. split.
  - apply string_of_uint_digits.
  - pose proof (to_uint_not_nil n) as H.
    destruct (Nat.to_uint n); try contradiction; discriminate.
Qed.

Lemma digits_value_uint :
  forall d acc after_digit,
    d <> Decimal.Nil \/ after_digit = true ->
    Py.digits_value (lit (NilEmpty.string_of_uint d)) (Z.of_nat acc)
      after_digit
    = Some (Z.of_nat (Nat.of_uint_acc d acc)).
Proof.
  induction d; intros acc after_digit H;
    try (cbn [NilEmpty.string_of_uint lit list_ascii_of_string
              Py.digits_value Nat.of_uint_acc];
         replace (Py.ascii_digit _) with true by reflexivity;
         cbv iota;
         rewrite Nat.tail_mul_spec;
         match goal with
         | |- Py.digits_value _ ?z true = Some (Z.of_nat (Nat.of_uint_acc _ ?a)) =>
             replace z with (Z.of_nat a)
               by (vm_compute (nat_of_ascii _ - 48); lia)
         end;
         apply IHd; right; reflexivity).
  destruct H as [H | ->]; [contradiction|reflexivity].
Qed.

Lemma digit_is_plain :
  forall c,
    Py.ascii_digit c = true ->
    Py.int_space c = false
    /\ Ascii.eqb c "-" = false /\ Ascii.eqb c "+" = false
    /\ Ascii.eqb c ";" = false /\ Ascii.eqb c "@" = false
    /\ Ascii.eqb c "#" = false
    /\ Py.char_isdigit c = true.
Proof.
  intros [[] [] [] [] [] [] [] []] H;
    try discriminate H; repeat split; reflexivity.
Qed.

(** [int(str(n)) == n] *)
Lemma int_str_of_nat :
  forall n, Py.int (Py.str_of_nat n) = Some (Z.of_nat n).
Proof.
  intros n.
  destruct (str_of_nat_digits n) as [Hd Hne].
  assert (Hdrop : forall s,
             Forall (fun c => Py.ascii_digit c = true) s ->
             Py.drop_while Py.int_space s = s).
  { intros [|c s] H; [reflexivity|]. simpl.
    inversion H; subst.
    destruct (digit_is_plain c) as [-> _]; [assumption|reflexivity]. }
  unfold Py.int. rewrite (Hdrop _ Hd).
  rewrite (Hdrop _ (Forall_rev Hd)), rev_involutive.
  destruct (Py.str_of_nat n) as [|c s] eqn:Hs; [contradiction|].
  inversion Hd; subst.
  destruct (digit_is_plain c) as [_ [-> [-> _]]]; [assumption|].
  rewrite <- Hs. unfold Py.str_of_nat.
  change 0%Z with (Z.of_nat 0).
  rewrite digits_value_uint by (left; apply to_uint_not_nil).
  f_equal. f_equal. apply DecimalNat.Unsigned.of_to.
Qed.

Lemma split_from_without :
  forall sep s cur,
    ~ In sep s -> Py.split_from sep s cur = [cur ++ s].
Proof.
  intros sep s. induction s as [|c s IH]; intros cur H; simpl.
  - rewrite app_nil_r. reflexivity.
  - destruct (Ascii.eqb c sep) eqn:Hc.
    + apply Ascii.eqb_eq in Hc. subst c. exfalso. apply H. left. reflexivity.
    + rewrite IH by (intros Hin; apply H; right; exact Hin).
      rewrite <- app_assoc. reflexivity.
Qed.

Lemma split_from_field :
  forall sep a b cur,
    ~ In sep a ->
    Py.split_from sep (a ++ sep :: b) cur
    = (cur ++ a) :: Py.split_from sep b [].
Proof.
  intros sep a. induction a as [|c a IH]; intros b cur H; simpl.
  - rewrite Ascii.eqb_refl, app_nil_r. reflexivity.
  - destruct (Ascii.eqb c sep) eqn:Hc.
    + apply Ascii.eqb_eq in Hc. subst c. exfalso. apply H. left. reflexivity.
    + rewrite IH by (intros Hin; apply H; right; exact Hin).
      rewrite <- app_assoc. reflexivity.
Qed.

(** [sep.join(s.split(sep)) == s] *)
Lemma join_split_from :
  forall sep s cur,
    Py.join [sep] (Py.split_from sep s cur) = cur ++ s.
Proof.
  intros sep s. induction s as [|c s IH]; intros cur;
    cbn [Py.split_from].
  - cbn [Py.join]. rewrite app_nil_r. reflexivity.
  - destruct (Ascii.eqb c sep) eqn:Hc.
    + apply Ascii.eqb_eq in Hc. subst c.
      specialize (IH []).
      destruct (Py.split_from sep s []) as [|x rest] eqn:Hsplit.
      * destruct s; simpl in Hsplit; [discriminate|].
        destruct (Ascii.eqb a sep); discriminate.
      * change (Py.join [sep] (cur :: x :: rest))
          with (cur ++ [sep] ++ Py.join [sep] (x :: rest)).
        rewrite IH. reflexivity.
    + rewrite IH, <- app_assoc. reflexivity.
Qed.

Lemma digits_without :
  forall s c,
    Forall (fun d => Py.ascii_digit d = true) s ->
    Py.ascii_digit c = false ->
    ~ In c s.
Proof.
  intros s c H Hc Hin. rewrite Forall_forall in H.
  apply H in Hin. congruence.
Qed.

Lemma isdigit_without_separator :
  forall s, In ";"%char s -> Py.isdigit s = false.
Proof.
  intros s H. unfold Py.isdigit. destruct s as [|c s]; [reflexivity|].
  destruct (forallb Py.char_isdigit (c :: s)) eqn:Hall; [|reflexivity].
  rewrite forallb_forall in Hall. apply Hall in H. discriminate.
Qed.

(** *** Colors, there and back *)

Lemma str_eqb_head :
  forall c1 s1 c2 s2, c1 <> c2 -> Py.str_eqb (c1 :: s1) (c2 :: s2) = false.
Proof.
  intros c1 s1 c2 s2 H. unfold Py.str_eqb.
  destruct (list_eq_dec ascii_dec (c1 :: s1) (c2 :: s2)) as [Heq|];
    [|reflexivity].
  injection Heq as Heq _. contradiction.
Qed.

(** No style name and no unset name starts with a digit or with [@]. *)
Lemma not_a_style_name :
  forall c rest,
    Py.ascii_digit c = true \/ c = "@"%char ->
    Py.list_index NAMES (c :: rest) = None
    /\ dict_get UNSET_MAP (c :: rest) = None.
Proof.
  intros c rest H.
  assert (Hc : c <> "/"%char
               /\ c <> "b"%char /\ c <> "d"%char /\ c <> "i"%char
               /\ c <> "u"%char /\ c <> "s"%char).
  { destruct H as [H| ->];
      repeat split; try discriminate;
      intros ->; vm_compute in H; discriminate. }
  destruct Hc as [H0 [H1 [H2 [H3 [H4 H5]]]]].
  split; cbn [NAMES UNSET_MAP map lit list_ascii_of_string fst snd
              Py.list_index dict_get];
    repeat rewrite str_eqb_head by (intros Heq; symmetry in Heq; contradiction);
    reflexivity.
Qed.

Lemma lstrip_other :
  forall c rest sep, c <> sep -> Py.lstrip (c :: rest) sep = c :: rest.
Proof.
  intros c rest sep H. simpl.
  destruct (Ascii.eqb c sep) eqn:Hc; [|reflexivity].
  apply Ascii.eqb_eq in Hc. contradiction.
Qed.

(** Digits and separators: the characters of a numeric color expression. *)
Lemma handle_color_numeric :
  forall translate_hex c rest,
    Py.ascii_digit c = true ->
    Forall (fun d => Py.ascii_digit d = true \/ d = ";"%char) rest ->
    let tag := c :: rest in
    let selector :=
      if Py.count tag ";"%char <? 2 then lit "5;" else lit "2;" in
    _handle_color translate_hex tag
    = Ok (Some (lit "38;" ++ selector ++ tag, false))
    /\ _handle_color translate_hex ("@"%char :: tag)
       = Ok (Some (lit "48;" ++ selector ++ tag, true)).
Proof.
  intros translate_hex c rest Hc Hrest tag selector.
  assert (Hfilter : forallb
                      (fun char => Py.char_isdigit char
                                   || Py.char_in char (lit "#;@abcdef"))
                      tag = true).
  { apply forallb_forall. intros x [<-|Hx].
    - destruct (digit_is_plain c Hc) as [_ [_ [_ [_ [_ [_ ->]]]]]].
      reflexivity.
    - rewrite Forall_forall in Hrest. destruct (Hrest x Hx) as [Hd| ->].
      + destruct (digit_is_plain x Hd) as [_ [_ [_ [_ [_ [_ ->]]]]]].
        reflexivity.
      + reflexivity. }
  destruct (digit_is_plain c Hc) as [_ [_ [_ [_ [Hat [Hhash _]]]]]].
  assert (H1 : Py.startswith tag (lit "@") = false).
  { subst tag. cbn [Py.startswith lit list_ascii_of_string].
    rewrite Ascii.eqb_sym, Hat. reflexivity. }
  assert (H2 : Py.startswith tag (lit "#") = false).
  { subst tag. cbn [Py.startswith lit list_ascii_of_string].
    rewrite Ascii.eqb_sym, Hhash. reflexivity. }
  split.
  - unfold _handle_color. rewrite Hfilter, H1. cbv beta iota zeta.
    cbn [negb]. rewrite H2, andb_true_r. reflexivity.
  - unfold _handle_color.
    replace (forallb _ ("@"%char :: tag)) with true
      by (cbn [forallb]; rewrite Hfilter; reflexivity).
    replace (Py.startswith ("@"%char :: tag) (lit "@")) with true
      by reflexivity.
    cbv beta iota zeta. cbn [negb Py.slice_from skipn].
    rewrite H2, andb_true_r. reflexivity.
Qed.

Lemma count_app :
  forall a b c, Py.count (a ++ b) c = Py.count a c + Py.count b c.
Proof.
  intros a b c. unfold Py.count. rewrite filter_app, length_app. reflexivity.
Qed.

Lemma count_without :
  forall s c, ~ In c s -> Py.count s c = 0.
Proof.
  intros s c. unfold Py.count. induction s as [|d s IH]; intros H; simpl.
  - reflexivity.
  - destruct (Ascii.eqb c d) eqn:Hd.
    + apply Ascii.eqb_eq in Hd. subst d. exfalso. apply H. left. reflexivity.
    + apply IH. intros Hin. apply H. right. exact Hin.
Qed.

Lemma str_of_nat_without :
  forall n c, Py.ascii_digit c = false -> ~ In c (Py.str_of_nat n).
Proof.
  intros n c H. apply digits_without; [|exact H].
  apply str_of_nat_digits.
Qed.

(** [to_name] on a color code: the name of the first field after the
    selector, when the table has a color with this index, and the fields
    themselves otherwise. *)
Lemma to_name_color :
  forall names s e attr pre sel n tail,
    ~ In ";"%char pre ->
    ~ In ";"%char sel ->
    tail = [] \/ (exists more, tail = ";"%char :: more) ->
    to_name names
      (mkToken s e None
         (Some (pre ++ lit ";" ++ sel ++ lit ";" ++ Py.str_of_nat n ++ tail))
         attr)
    = Ok ((if Py.str_eqb pre (lit "48") then lit "@" else [])
            ++ match dict_key_of (fun v => Z.eqb (Z.of_nat v) (Z.of_nat n))
                       names with
               | Some name => name
               | None => Py.str_of_nat n ++ tail
               end).
Proof.
  intros names s e attr pre sel n tail Hpre Hsel Htail.
  unfold to_name. cbn [plain code].
  rewrite isdigit_without_separator
    by (apply in_or_app; right; left; reflexivity).
  assert (Hsplit :
            Py.split (pre ++ lit ";" ++ sel ++ lit ";"
                        ++ Py.str_of_nat n ++ tail) ";"%char
            = pre :: sel :: Py.split_from ";"%char (Py.str_of_nat n ++ tail) []).
  { unfold Py.split. change (lit ";" ++ ?x) with (";"%char :: x).
    rewrite split_from_field by exact Hpre.
    change (lit ";" ++ ?x) with (";"%char :: x).
    rewrite split_from_field by exact Hsel. reflexivity. }
  assert (Hfirst : exists others,
             Py.split_from ";"%char (Py.str_of_nat n ++ tail) []
             = Py.str_of_nat n :: others).
  { destruct Htail as [->|[more ->]].
    - rewrite app_nil_r, split_from_without
        by (apply str_of_nat_without; reflexivity).
      exists []. reflexivity.
    - rewrite split_from_field by (apply str_of_nat_without; reflexivity).
      eexists. reflexivity. }
  destruct Hfirst as [others Hfirst].
  cbv zeta. rewrite Hsplit.
  cbn [nth List.length skipn]. rewrite Hfirst. cbn [nth List.length].
  replace (S (S (S (List.length others))) <? 3) with false
    by (symmetry; apply Nat.ltb_ge; lia).
  rewrite int_str_of_nat. rewrite <- Hfirst.
  change (lit ";") with [";"%char]. rewrite join_split_from.
  destruct (dict_key_of _ names); destruct (Py.str_eqb pre (lit "48"));
    reflexivity.
Qed.

Lemma str_of_nat_cons :
  forall n,
    exists c rest,
      Py.str_of_nat n = c :: rest
      /\ Py.ascii_digit c = true
      /\ Forall (fun d => Py.ascii_digit d = true) rest.
Proof.
  intros n. destruct (str_of_nat_digits n) as [Hd Hne].
  destruct (Py.str_of_nat n) as [|c rest]; [contradiction|].
  inversion Hd; subst. exists c, rest. auto.
Qed.

(** The token of a numeric color expression that names no color. *)
Lemma tag_token_numeric :
  forall names translate_hex s e c rest,
    Py.ascii_digit c = true ->
    Forall (fun d => Py.ascii_digit d = true \/ d = ";"%char) rest ->
    dict_mem names (c :: rest) = false ->
    let tag := c :: rest in
    let selector :=
      if Py.count tag ";"%char <? 2 then lit "5;" else lit "2;" in
    tag_token names translate_hex s e tag
    = Ok (mkToken s e None (Some (lit "38;" ++ selector ++ tag)) (Some COLOR))
    /\ tag_token names translate_hex s e ("@"%char :: tag)
       = Ok (mkToken s e None (Some (lit "48;" ++ selector ++ tag))
               (Some BACKGROUND_COLOR)).
Proof.
  intros names translate_hex s e c rest Hc Hrest Hmem tag selector.
  destruct (handle_color_numeric translate_hex c rest Hc Hrest) as [Hf Hb].
  destruct (digit_is_plain c Hc) as [_ [_ [_ [_ [Hat _]]]]].
  assert (Hne : c <> "@"%char)
    by (intros ->; rewrite Ascii.eqb_refl in Hat; discriminate).
  subst tag. cbv zeta in Hf, Hb.
  split.
  - unfold tag_token.
    destruct (not_a_style_name c rest (or_introl Hc)) as [-> ->].
    unfold _handle_named_color.
    rewrite (lstrip_other c rest "@"%char Hne), Hmem.
    cbn [negb bind]. rewrite Hf. reflexivity.
  - unfold tag_token.
    destruct (not_a_style_name "@"%char (c :: rest) (or_intror eq_refl))
      as [-> ->].
    unfold _handle_named_color.
    replace (Py.lstrip ("@"%char :: c :: rest) "@"%char) with (c :: rest)
      by (cbn [Py.lstrip]; rewrite Ascii.eqb_refl;
          symmetry; apply lstrip_other; exact Hne).
    rewrite Hmem. cbn [negb bind]. rewrite Hb. reflexivity.
Qed.

(** A palette index written as a tag becomes the code [38;5;n], or
    [48;5;n] after [@], and [to_name] turns that code back into the index,
    unless the table has a color with this index: then it gives the name of
    the first such color. *)
Theorem palette_index_round_trip :
  forall names translate_hex s e n,
    dict_mem names (Py.str_of_nat n) = false ->
    let index := Py.str_of_nat n in
    let fore := mkToken s e None (Some (lit "38;5;" ++ index)) (Some COLOR) in
    let back :=
      mkToken s e None (Some (lit "48;5;" ++ index))
        (Some BACKGROUND_COLOR) in
    let name :=
      match name_of_index names n with
      | Some name => name
      | None => index
      end in
    tag_token names translate_hex s e index = Ok fore
    /\ tag_token names translate_hex s e ("@"%char :: index) = Ok back
    /\ to_name names fore = Ok name
    /\ to_name names back = Ok ("@"%char :: name).
Proof.
  intros names translate_hex s e n Hmem index fore back name.
  destruct (str_of_nat_cons n) as [c [rest [Hn [Hc Hrest]]]].
  assert (Hrest' : Forall (fun d => Py.ascii_digit d = true \/ d = ";"%char)
                     rest)
    by (eapply Forall_impl; [|exact Hrest]; intros; left; assumption).
  assert (Hcount : Py.count index ";"%char = 0)
    by (apply count_without; apply str_of_nat_without; reflexivity).
  subst index. rewrite Hn in Hmem.
  destruct (tag_token_numeric names translate_hex s e c rest Hc Hrest' Hmem)
    as [Hf Hb].
  rewrite <- Hn in Hf, Hb. rewrite Hcount in Hf, Hb.
  split; [exact Hf|]. split; [exact Hb|].
  pose proof (to_name_color names s e (Some COLOR) (lit "38") (lit "5") n []
                ltac:(vm_compute; intuition discriminate)
                ltac:(vm_compute; intuition discriminate)
                (or_introl eq_refl)) as H1.
  pose proof (to_name_color names s e (Some BACKGROUND_COLOR)
                (lit "48") (lit "5") n []
                ltac:(vm_compute; intuition discriminate)
                ltac:(vm_compute; intuition discriminate)
                (or_introl eq_refl)) as H2.
  rewrite !app_nil_r in H1, H2.
  split; [exact H1|exact H2].
Qed.

(** [palette_index_round_trip] at the index 141. *)
Lemma palette_index_round_trip_witness :
  tag_token docstring_names spec_translate_hex 0 5 (lit "141")
  = Ok (mkToken 0 5 None (Some (lit "38;5;141")) (Some COLOR))
  /\ tag_token docstring_names spec_translate_hex 0 5 (lit "@141")
     = Ok (mkToken 0 5 None (Some (lit "48;5;141")) (Some BACKGROUND_COLOR))
  /\ to_name docstring_names
       (mkToken 0 5 None (Some (lit "38;5;141")) (Some COLOR))
     = Ok (lit "141")
  /\ to_name docstring_names
       (mkToken 0 5 None (Some (lit "48;5;141")) (Some BACKGROUND_COLOR))
     = Ok (lit "@141").
Proof.
  apply (palette_index_round_trip docstring_names spec_translate_hex 0 5 141).
  reflexivity.
Defined.

(** An RGB color written as a tag becomes the code [38;2;r;g;b], and
    [to_name] turns that code back into [r;g;b] only when the table has no
    color with the index [r]: otherwise it gives the name of that color,
    whatever [g] and [b] are. *)
Theorem rgb_round_trip :
  forall names translate_hex s e r g b,
    let rgb :=
      Py.str_of_nat r ++ lit ";" ++ Py.str_of_nat g ++ lit ";"
        ++ Py.str_of_nat b in
    dict_mem names rgb = false ->
    let fore := mkToken s e None (Some (lit "38;2;" ++ rgb)) (Some COLOR) in
    tag_token names translate_hex s e rgb = Ok fore
    /\ to_name names fore
       = Ok (match name_of_index names r with
             | Some name => name
             | None => rgb
             end).
Proof.
  intros names translate_hex s e r g b rgb Hmem fore.
  destruct (str_of_nat_cons r) as [c [rest [Hr [Hc Hrest]]]].
  assert (Hdigits : forall n,
             Forall (fun d => Py.ascii_digit d = true \/ d = ";"%char)
               (Py.str_of_nat n)).
  { intros n. eapply Forall_impl; [|apply str_of_nat_digits].
    intros; left; assumption. }
  assert (Hrest' : Forall (fun d => Py.ascii_digit d = true \/ d = ";"%char)
                     (rest ++ lit ";" ++ Py.str_of_nat g ++ lit ";"
                        ++ Py.str_of_nat b)).
  { apply Forall_app. split.
    - eapply Forall_impl; [|exact Hrest]. intros; left; assumption.
    - constructor; [right; reflexivity|].
      apply Forall_app. split; [apply Hdigits|].
      constructor; [right; reflexivity|apply Hdigits]. }
  assert (Hrgb : rgb = c :: rest ++ lit ";" ++ Py.str_of_nat g ++ lit ";"
                         ++ Py.str_of_nat b)
    by (subst rgb; rewrite Hr; reflexivity).
  assert (Hcount : Py.count rgb ";"%char = 2).
  { subst rgb. rewrite !count_app.
    rewrite (count_without (Py.str_of_nat r)),
      (count_without (Py.str_of_nat g)), (count_without (Py.str_of_nat b))
      by (apply str_of_nat_without; reflexivity).
    reflexivity. }
  rewrite Hrgb in Hmem.
  destruct (tag_token_numeric names translate_hex s e c _ Hc Hrest' Hmem)
    as [Hf _].
  rewrite <- Hrgb in Hf. rewrite Hcount in Hf.
  split; [exact Hf|].
  exact (to_name_color names s e (Some COLOR) (lit "38") (lit "2") r
           (lit ";" ++ Py.str_of_nat g ++ lit ";" ++ Py.str_of_nat b)
           ltac:(vm_compute; intuition discriminate)
           ltac:(vm_compute; intuition discriminate)
           (or_intror (ex_intro _ _ eq_refl))).
Qed.

(** [rgb_round_trip] at the colors 60;100;200, which comes back, and 1;2;3,
    which comes back as [red]. *)
Lemma rgb_round_trip_witness :
  (tag_token docstring_names spec_translate_hex 0 12 (lit "60;100;200")
   = Ok (mkToken 0 12 None (Some (lit "38;2;60;100;200")) (Some COLOR))
   /\ to_name docstring_names
        (mkToken 0 12 None (Some (lit "38;2;60;100;200")) (Some COLOR))
      = Ok (lit "60;100;200"))
  /\ (tag_token docstring_names spec_translate_hex 0 7 (lit "1;2;3")
      = Ok (mkToken 0 7 None (Some (lit "38;2;1;2;3")) (Some COLOR))
      /\ to_name docstring_names
           (mkToken 0 7 None (Some (lit "38;2;1;2;3")) (Some COLOR))
         = Ok (lit "red")).
Proof.
  split.
  - apply (rgb_round_trip docstring_names spec_translate_hex 0 12 60 100 200).
    reflexivity.
  - apply (rgb_round_trip docstring_names spec_translate_hex 0 7 1 2 3).
    reflexivity.
Defined.

Lemma lstrip_not_prefixed :
  forall s, Py.startswith s (lit "@") = false -> Py.lstrip s "@"%char = s.
Proof.
  intros [|c s] H; [reflexivity|].
  cbn [Py.startswith lit list_ascii_of_string] in H.
  cbn [Py.lstrip]. rewrite Ascii.eqb_sym.
  destruct (Ascii.eqb "@" c); [|reflexivity].
  destruct s; discriminate.
Qed.

Lemma name_of_index_defined :
  forall (names : list (str * nat)) name v,
    dict_get names name = Some v ->
    exists canonical, name_of_index names v = Some canonical.
Proof.
  unfold name_of_index.
  induction names as [|[k v'] names IH]; intros name v H; simpl in H.
  - discriminate.
  - simpl. destruct (Z.eqb (Z.of_nat v') (Z.of_nat v)) eqn:Hv.
    + exists k. reflexivity.
    + destruct (Py.str_eqb k name).
      * injection H as ->. rewrite Z.eqb_refl in Hv. discriminate.
      * exact (IH _ _ H).
Qed.

Lemma dict_mem_get :
  forall (names : list (str * nat)) name v,
    dict_get names name = Some v -> dict_mem names name = true.
Proof.
  intros names name v H. unfold dict_mem. rewrite H. reflexivity.
Qed.

(** The name of a color of the table, used as a tag, becomes the palette
    code [38;5;v] of its index [v], or [48;5;v] after [@]; [to_name] turns
    that code back into the name of the first color of the table that has
    this index. *)
Theorem named_color_round_trip :
  forall names translate_hex s e name v,
    dict_get names name = Some v ->
    Py.startswith name (lit "@") = false ->
    Py.list_index NAMES name = None ->
    dict_get UNSET_MAP name = None ->
    let index := Py.str_of_nat v in
    let fore := mkToken s e None (Some (lit "38;5;" ++ index)) (Some COLOR) in
    let back :=
      mkToken s e None (Some (lit "48;5;" ++ index))
        (Some BACKGROUND_COLOR) in
    tag_token names translate_hex s e name = Ok fore
    /\ tag_token names translate_hex s e ("@"%char :: name) = Ok back
    /\ exists canonical,
        name_of_index names v = Some canonical
        /\ to_name names fore = Ok canonical
        /\ to_name names back = Ok ("@"%char :: canonical).
Proof.
  intros names translate_hex s e name v Hget Hat Hstyle Hunset index fore back.
  destruct (str_of_nat_cons v) as [c [rest [Hv [Hc Hrest]]]].
  assert (Hrest' : Forall (fun d => Py.ascii_digit d = true \/ d = ";"%char)
                     rest)
    by (eapply Forall_impl; [|exact Hrest]; intros; left; assumption).
  assert (Hcount : Py.count index ";"%char = 0)
    by (apply count_without; apply str_of_nat_without; reflexivity).
  destruct (handle_color_numeric translate_hex c rest Hc Hrest') as [Hf Hb].
  cbv zeta in Hf, Hb. rewrite <- Hv in Hf, Hb.
  fold index in Hf, Hb. rewrite Hcount in Hf, Hb.
  split; [|split].
  - unfold tag_token. rewrite Hstyle, Hunset.
    unfold _handle_named_color.
    rewrite (lstrip_not_prefixed name Hat), (dict_mem_get _ _ _ Hget), Hat.
    cbn [negb]. cbv beta iota zeta. rewrite Hget.
    cbn [app]. fold index. rewrite Hf. reflexivity.
  - unfold tag_token.
    destruct (not_a_style_name "@"%char name (or_intror eq_refl)) as [-> ->].
    unfold _handle_named_color.
    replace (Py.lstrip ("@"%char :: name) "@"%char) with name
      by (cbn [Py.lstrip]; rewrite Ascii.eqb_refl;
          symmetry; apply lstrip_not_prefixed; exact Hat).
    rewrite (dict_mem_get _ _ _ Hget).
    replace (Py.startswith ("@"%char :: name) (lit "@")) with true
      by (destruct name; reflexivity).
    cbn [negb Py.slice_from skipn]. cbv beta iota zeta. rewrite Hget.
    change (lit "@" ++ Py.str_of_nat v) with ("@"%char :: index).
    rewrite Hb. reflexivity.
  - destruct (name_of_index_defined names name v Hget) as [canonical Hcan].
    exists canonical. split; [exact Hcan|].
    pose proof (to_name_color names s e (Some COLOR) (lit "38") (lit "5") v []
                  ltac:(vm_compute; intuition discriminate)
                  ltac:(vm_compute; intuition discriminate)
                  (or_introl eq_refl)) as H1.
    pose proof (to_name_color names s e (Some BACKGROUND_COLOR)
                  (lit "48") (lit "5") v []
                  ltac:(vm_compute; intuition discriminate)
                  ltac:(vm_compute; intuition discriminate)
                  (or_introl eq_refl)) as H2.
    rewrite !app_nil_r in H1, H2. fold (name_of_index names v) in H1, H2.
    rewrite Hcan in H1, H2.
    split; [exact H1|exact H2].
Qed.

(** [named_color_round_trip] at the color [red]. *)
Lemma named_color_round_trip_witness :
  let fore := mkToken 0 5 None (Some (lit "38;5;1")) (Some COLOR) in
  let back := mkToken 0 5 None (Some (lit "48;5;1")) (Some BACKGROUND_COLOR) in
  tag_token docstring_names spec_translate_hex 0 5 (lit "red") = Ok fore
  /\ tag_token docstring_names spec_translate_hex 0 5 (lit "@red") = Ok back
  /\ exists canonical,
      name_of_index docstring_names 1 = Some canonical
      /\ to_name docstring_names fore = Ok canonical
      /\ to_name docstring_names back = Ok ("@"%char :: canonical).
Proof.
  apply (named_color_round_trip docstring_names spec_translate_hex 0 5
           (lit "red") 1); reflexivity.
Defined.

(** A color name after two [@] is taken for a named color, since all the
    leading [@] are stripped for the test, and then looked up with one [@]
    left: unless the table has that key too, the tag raises [KeyError]
    instead of being resolved or rejected as unrecognized. *)
Theorem doubled_at_raises_key_error :
  forall names translate_hex s e name,
    dict_mem names name = true ->
    Py.startswith name (lit "@") = false ->
    dict_get names ("@"%char :: name) = None ->
    tag_token names translate_hex s e ("@"%char :: "@"%char :: name)
    = Raise (KeyError ("@"%char :: name)).
Proof.
  intros names translate_hex s e name Hmem Hat Hget.
  unfold tag_token.
  destruct (not_a_style_name "@"%char ("@"%char :: name) (or_intror eq_refl))
    as [-> ->].
  unfold _handle_named_color.
  replace (Py.lstrip ("@"%char :: "@"%char :: name) "@"%char) with name
    by (cbn [Py.lstrip]; rewrite Ascii.eqb_refl;
        symmetry; apply lstrip_not_prefixed; exact Hat).
  rewrite Hmem.
  cbn [negb Py.startswith lit list_ascii_of_string Py.slice_from skipn].
  rewrite Ascii.eqb_refl. cbn [andb]. cbv beta iota zeta.
  rewrite Hget. reflexivity.
Qed.

(** [doubled_at_raises_key_error] at the tag ["@@red"]. *)
Lemma doubled_at_raises_key_error_witness :
  tag_token docstring_names spec_translate_hex 0 7 (lit "@@red")
  = Raise (KeyError (lit "@red")).
Proof.
  apply (doubled_at_raises_key_error docstring_names spec_translate_hex 0 7
           (lit "red")); reflexivity.
Defined.

(** Every style name, used as a tag, comes back from [to_name] as itself;
    every unset name becomes its code of [UNSET_MAP] and comes back as an
    unset name with the same code (the first one of the map: [/dim] comes
    back as [/bold]). *)
Theorem style_names_round_trip :
  forall names translate_hex s e,
    Forall (fun tag =>
              exists t,
                tag_token names translate_hex s e tag = Ok t
                /\ to_name names t = Ok tag)
      NAMES
    /\ Forall (fun item =>
                 exists t canonical,
                   tag_token names translate_hex s e (fst item) = Ok t
                   /\ code t = Some (snd item)
                   /\ attribute t = Some CLEAR
                   /\ to_name names t = Ok canonical
                   /\ dict_get UNSET_MAP canonical = Some (snd item))
         UNSET_MAP.
Proof.
  intros names translate_hex s e. split.
  - repeat constructor; eexists; split; reflexivity.
  - repeat constructor; eexists; eexists; repeat split; reflexivity.
Qed.

(** *** One bracket group and the text after it *)

Lemma lazy_until_found :
  forall stop body rest,
    ~ In stop body -> ~ In Re.NL body ->
    Re.lazy_until stop (body ++ stop :: rest) = Some body.
Proof.
  intros stop body rest. induction body as [|c body IH]; intros Hs Hn; simpl.
  - rewrite Ascii.eqb_refl. reflexivity.
  - destruct (Ascii.eqb c stop) eqn:Hc.
    { apply Ascii.eqb_eq in Hc. subst c. exfalso. apply Hs. left. reflexivity. }
    destruct (Ascii.eqb c Re.NL) eqn:Hnl.
    { apply Ascii.eqb_eq in Hnl. subst c. exfalso. apply Hn. left.
      reflexivity. }
    rewrite IH; [reflexivity| |];
      intros H; [apply Hs|apply Hn]; right; exact H.
Qed.

Lemma In_skipn_In :
  forall (c : ascii) n s, In c (skipn n s) -> In c s.
Proof.
  intros c n s H. rewrite <- (firstn_skipn n s).
  apply in_or_app. right. exact H.
Qed.

(** No match of [RE_TAGS] starts in text without an opening bracket. *)
Lemma finditer_from_RE_TAGS_none :
  forall (s before : str) pos skip,
    pos = List.length before ->
    skip <= List.length s ->
    ~ In "["%char (skipn skip s) ->
    Re.finditer_from Re.RE_TAGS s pos skip = [].
Proof.
  intros s before pos skip Hpos Hskip Hno.
  pose proof (finditer_from_matches_in Re.RE_TAGS RE_TAGS_length s before pos
                skip Hpos Hskip) as Hin.
  destruct (Re.finditer_from Re.RE_TAGS s pos skip) as [|[[st en] g] ms];
    [reflexivity|].
  destruct Hin as [Hlo [Hspan [Hre _]]]. exfalso. apply Hno.
  apply RE_TAGS_needs_bracket in Hre.
  rewrite skipn_app in Hre.
  replace (skipn st before) with (@nil ascii) in Hre
    by (symmetry; apply skipn_all2; lia).
  cbn [app] in Hre.
  replace (st - List.length before)
    with ((st - List.length before - skip) + skip) in Hre by lia.
  rewrite <- skipn_skipn in Hre.
  exact (In_skipn_In _ _ _ Hre).
Qed.

(** When no tag fails, the tags of a group give one token each, in order:
    a repeated tag is not dropped. *)
Lemma tags_loop_one_per_tag :
  forall names translate_hex s e tags,
    raised (tags_loop names translate_hex s e tags) = None ->
    Forall2 (fun tag t => tag_token names translate_hex s e tag = Ok t)
      tags (yielded (tags_loop names translate_hex s e tags)).
Proof.
  intros names translate_hex s e tags.
  induction tags as [|tag tags IH]; simpl; intros H; [constructor|].
  destruct (tag_token names translate_hex s e tag) eqn:Htag; simpl in H |- *;
    [|discriminate].
  constructor; [exact Htag|exact (IH H)].
Qed.

(** One bracket group and text without a bracket after it: the tokens are
    those of the tags of the group, and then the text. *)
Lemma tokenize_markup_group_text :
  forall names translate_hex c body text,
    Re.tag_first c = true ->
    ~ In "]"%char (c :: body) ->
    ~ In Re.NL (c :: body) ->
    ~ In "["%char text ->
    let markup := lit "[" ++ (c :: body) ++ lit "]" ++ text in
    let len := List.length (c :: body) + 2 in
    let tags :=
      tags_loop names translate_hex 0 len (Py.split_ws (c :: body)) in
    raised tags = None ->
    tokenize_markup names translate_hex markup
    = mkRun (yielded tags
               ++ match text with
                  | [] => []
                  | _ => [mkToken 0 len (Some text) None None]
                  end) None
    /\ markup_to_ansi names translate_hex markup
       = Ok (terminate (List.concat (map sequence (yielded tags)) ++ text)).
Proof.
  intros names translate_hex c body text Hc Hclose Hnl Htext markup len tags
    Hok.
  assert (Hre : Re.RE_TAGS markup
                = Some ((firstn len markup, [], c :: body), len)).
  { subst markup len. unfold Re.RE_TAGS.
    cbn [lit list_ascii_of_string app Re.backslashes].
    replace (Ascii.eqb "[" "\") with false by reflexivity.
    cbn [List.length skipn]. rewrite Ascii.eqb_refl, Hc. cbn [andb].
    rewrite lazy_until_found;
      [|intros H; apply Hclose; right; exact H
       |intros H; apply Hnl; right; exact H].
    assert (E : forall n, 0 + 1 + n + 1 = n + 2) by (intros; lia).
    rewrite !E. reflexivity. }
  assert (Hlen : List.length markup = len + List.length text).
  { subst markup len. cbn [lit list_ascii_of_string app List.length].
    rewrite length_app. cbn [List.length]. lia. }
  assert (Hfind : Re.finditer Re.RE_TAGS markup
                  = [(0, len, (firstn len markup, [], c :: body))]).
  { unfold Re.finditer.
    assert (Hm : markup = "["%char :: (c :: body) ++ "]"%char :: text)
      by reflexivity.
    rewrite Hm at 1. cbn [Re.finditer_from]. rewrite <- Hm, Hre.
    cbn [Nat.add]. f_equal.
    apply (finditer_from_RE_TAGS_none _ ["["%char]); [reflexivity| |].
    - subst len. rewrite length_app. cbn [List.length]. lia.
    - replace (len - 1) with (List.length ((c :: body) ++ ["]"%char]))
        by (subst len; rewrite length_app; cbn [List.length]; lia).
      change ((c :: body) ++ "]"%char :: text)
        with ((c :: body) ++ ["]"%char] ++ text).
      rewrite app_assoc, skipn_app, Nat.sub_diag, skipn_all. exact Htext. }
  assert (Htok : tokenize_markup names translate_hex markup
                 = mkRun (yielded tags
                            ++ match text with
                               | [] => []
                               | _ => [mkToken 0 len (Some text) None None]
                               end) None).
  { unfold tokenize_markup. rewrite Hfind.
    cbn [tokenize_markup_loop].
    change (0 <? 0) with false.
    change (0 <? List.length (@nil ascii) / 2) with false.
    change (0 <? List.length (@nil ascii) mod 2) with false.
    cbv iota. cbn [app]. fold tags. unfold yield. rewrite Hok. cbn [yielded raised app].
    rewrite Hlen.
    destruct text as [|d text].
    - rewrite Nat.add_0_r, Nat.ltb_irrefl. reflexivity.
    - replace (len <? len + List.length (d :: text)) with true
        by (symmetry; apply Nat.ltb_lt; cbn [List.length]; lia).
      assert (Hslice : Py.slice_from markup len = d :: text).
      { unfold Py.slice_from. subst markup len.
        change (lit "[" ++ (c :: body) ++ lit "]" ++ d :: text)
          with (("["%char :: c :: body) ++ ["]"%char] ++ d :: text).
        rewrite app_assoc, skipn_app.
        replace (List.length (c :: body) + 2
                 - List.length (("["%char :: c :: body) ++ ["]"%char]))
          with 0 by (rewrite length_app; cbn [List.length]; lia).
        rewrite skipn_all2
          by (rewrite length_app; cbn [List.length]; lia).
        reflexivity. }
      rewrite Hslice. reflexivity. }
  split; [exact Htok|].
  unfold markup_to_ansi. rewrite Htok. cbn [yielded raised].
  rewrite to_sequence_loop_concat.
  - cbn [bind app]. rewrite map_app, concat_app.
    destruct text; cbn [map List.concat sequence code plain];
      rewrite ?app_nil_r; reflexivity.
  - apply Forall_app. split.
    + apply tags_loop_exactly_one.
    + destruct text;
        [constructor
        |constructor; [apply plain_token_exactly_one|constructor]].
Qed.

(** Markup made of one bracket group and text without a bracket after it:
    when every tag of the group resolves, [tokenize_markup] yields one token
    for each tag, in order and without dropping repeated tags, and then the
    text, if there is any; [markup_to_ansi] returns the sequences of the
    tags, the text, and the reset sequence. *)
Theorem group_then_text :
  forall names translate_hex c body text,
    Re.tag_first c = true ->
    ~ In "]"%char (c :: body) ->
    ~ In Re.NL (c :: body) ->
    ~ In "["%char text ->
    let markup := lit "[" ++ (c :: body) ++ lit "]" ++ text in
    let len := List.length (c :: body) + 2 in
    raised (tags_loop names translate_hex 0 len (Py.split_ws (c :: body)))
    = None ->
    exists tokens,
      Forall2 (fun tag t => tag_token names translate_hex 0 len tag = Ok t)
        (Py.split_ws (c :: body)) tokens
      /\ tokenize_markup names translate_hex markup
         = mkRun (tokens
                    ++ match text with
                       | [] => []
                       | _ => [mkToken 0 len (Some text) None None]
                       end) None
      /\ markup_to_ansi names translate_hex markup
         = Ok (terminate (List.concat (map sequence tokens) ++ text)).
Proof.
  intros names translate_hex c body text Hc Hclose Hnl Htext markup len Hok.
  eexists. split; [apply tags_loop_one_per_tag; exact Hok|].
  exact (tokenize_markup_group_text names translate_hex c body text
           Hc Hclose Hnl Htext Hok).
Qed.

(** [group_then_text] at the markup ["[bold bold]hi"]. *)
Lemma group_then_text_witness :
  exists tokens,
    Forall2 (fun tag t =>
               tag_token docstring_names spec_translate_hex 0 11 tag = Ok t)
      [lit "bold"; lit "bold"] tokens
    /\ tokenize_markup docstring_names spec_translate_hex (lit "[bold bold]hi")
       = mkRun (tokens ++ [mkToken 0 11 (Some (lit "hi")) None None]) None
    /\ markup_to_ansi docstring_names spec_translate_hex (lit "[bold bold]hi")
       = Ok (terminate (List.concat (map sequence tokens) ++ lit "hi")).
Proof.
  apply (group_then_text docstring_names spec_translate_hex
           "b"%char (lit "old bold") (lit "hi")).
  - reflexivity.
  - vm_compute. intros H.
    repeat (destruct H as [H|H]; [discriminate|]). exact H.
  - vm_compute. intros H.
    repeat (destruct H as [H|H]; [discriminate|]). exact H.
  - vm_compute. intros H.
    repeat (destruct H as [H|H]; [discriminate|]). exact H.
  - reflexivity.
Defined.

(** *** The alphabet of the codes *)

Lemma digits_are_color_chars :
  forall s,
    Forall (fun c => Py.ascii_digit c = true) s ->
    Forall (fun c => color_char c = true) s.
Proof.
  intros s H. eapply Forall_impl; [|exact H].
  intros c Hc. unfold color_char.
  destruct (digit_is_plain c Hc) as [_ [_ [_ [_ [_ [_ ->]]]]]]. reflexivity.
Qed.

Lemma str_of_nat_color_chars :
  forall n, Forall (fun c => color_char c = true) (Py.str_of_nat n).
Proof.
  intros n. apply digits_are_color_chars. apply str_of_nat_digits.
Qed.

Lemma handle_color_code_chars :
  forall translate_hex tag payload background,
    _handle_color translate_hex tag = Ok (Some (payload, background)) ->
    Forall (fun c => color_char c = true) payload.
Proof.
  intros translate_hex tag payload background H.
  unfold _handle_color in H.
  destruct (forallb _ tag) eqn:Hfilter; [|discriminate].
  cbn [negb] in H.
  assert (Htag : Forall (fun c => color_char c = true) tag).
  { apply Forall_forall. rewrite forallb_forall in Hfilter. exact Hfilter. }
  assert (Hsel : forall b : bool,
             Forall (fun c => color_char c = true)
               (if b then lit "5;" else lit "2;"))
    by (intros []; repeat constructor).
  assert (Hrgb : forall r g b,
             Forall (fun c => color_char c = true)
               (Py.join (lit ";") (map Py.str_of_nat [r; g; b]))).
  { intros r g b. cbn [map Py.join].
    repeat (apply Forall_app; split);
      try apply str_of_nat_color_chars; repeat constructor. }
  destruct (Py.startswith tag (lit "@")); cbv beta iota zeta in H;
    match type of H with
    | context [Py.startswith ?b (lit "#")] =>
        destruct (Py.startswith b (lit "#"));
        [destruct (translate_hex b) as [[[r g] b']|]; [|discriminate]|]
    end; unfold bind in H;
    match type of H with
    | Ok (Some (?x, _)) = _ =>
        assert (Hp : payload = x) by congruence; rewrite Hp
    end;
    repeat (apply Forall_app; split);
    try apply Hsel; try apply Hrgb; try exact Htag;
    try apply str_of_nat_color_chars;
    try (apply Forall_skipn; exact Htag);
    repeat constructor.
Qed.

Lemma dict_get_In :
  forall (d : list (str * str)) key v,
    dict_get d key = Some v -> In v (map snd d).
Proof.
  induction d as [|[k v'] d IH]; intros key v H; simpl in H.
  - discriminate.
  - destruct (Py.str_eqb k key).
    + injection H as <-. left. reflexivity.
    + right. exact (IH _ _ H).
Qed.

Lemma tag_token_code_chars :
  forall names translate_hex s e tag t,
    tag_token names translate_hex s e tag = Ok t ->
    exists c,
      code t = Some c /\ plain t = None
      /\ Forall (fun x => color_char x = true) c.
Proof.
  intros names translate_hex s e tag t H. unfold tag_token in H.
  destruct (Py.list_index NAMES tag) as [index|].
  { injection H as <-. eexists. split; [reflexivity|].
    split; [reflexivity|apply str_of_nat_color_chars]. }
  destruct (dict_get UNSET_MAP tag) as [unset|] eqn:Hunset.
  { injection H as <-. exists unset. split; [reflexivity|].
    split; [reflexivity|].
    apply dict_get_In in Hunset.
    assert (Hall : Forall (fun v => Forall (fun x => color_char x = true) v)
                     (map snd UNSET_MAP))
      by (repeat constructor).
    rewrite Forall_forall in Hall. exact (Hall _ Hunset). }
  destruct (_handle_named_color names translate_hex tag)
    as [[[c b]|]|err] eqn:Hnamed; simpl in H; try discriminate.
  { injection H as <-. exists c. split; [reflexivity|].
    split; [reflexivity|].
    unfold _handle_named_color in Hnamed.
    destruct (negb (dict_mem names (Py.lstrip tag "@"))); [discriminate|].
    destruct (Py.startswith tag (lit "@")); cbv beta iota zeta in Hnamed;
      match type of Hnamed with
      | context [dict_get names ?k] =>
          destruct (dict_get names k); [|discriminate]
      end; eapply handle_color_code_chars; exact Hnamed. }
  destruct (_handle_color translate_hex tag) as [[[c b]|]|err] eqn:Hcolor;
    simpl in H; try discriminate.
  injection H as <-. exists c. split; [reflexivity|].
  split; [reflexivity|]. eapply handle_color_code_chars. exact Hcolor.
Qed.

Lemma color_char_not_terminator :
  forall c, color_char c = true -> c <> "m"%char /\ c <> Re.NL.
Proof.
  intros [[] [] [] [] [] [] [] []] H; try discriminate H;
    split; discriminate.
Qed.

Lemma tags_loop_code_chars :
  forall names translate_hex s e tags,
    Forall (fun t =>
              forall c, code t = Some c ->
                        Forall (fun x => color_char x = true) c)
      (yielded (tags_loop names translate_hex s e tags)).
Proof.
  intros names translate_hex s e tags.
  induction tags as [|tag tags IH]; simpl; [constructor|].
  destruct (tag_token names translate_hex s e tag) eqn:Htag; simpl;
    [|constructor].
  constructor; [|exact IH].
  intros c Hc.
  destruct (tag_token_code_chars _ _ _ _ _ _ Htag) as [c' [Hc' [_ Hall]]].
  congruence.
Qed.

(** A property of every plain token and of every token of a tag holds for
    all the tokens that [tokenize_markup] yields. *)
Lemma tokenize_markup_loop_forall :
  forall (P : Token -> Prop) names translate_hex text,
    (forall s e plain_text, P (mkToken s e (Some plain_text) None None)) ->
    (forall s e tags, Forall P (yielded (tags_loop names translate_hex s e tags))) ->
    forall matches position span,
      Forall P
        (yielded (tokenize_markup_loop names translate_hex text matches
                    position span)).
Proof.
  intros P names translate_hex text Hplain Htags matches.
  induction matches as [|[[start end_] [[whole escapes] tag_text]] matches IH];
    intros position span; cbn [tokenize_markup_loop].
  - destruct (position <? List.length text); [|constructor].
    destruct span as [[s e]|]; simpl; [|constructor].
    constructor; [apply Hplain|constructor].
  - destruct (position <? start);
      destruct (0 <? List.length escapes / 2);
      destruct (0 <? List.length escapes mod 2);
      unfold yield; cbn [yielded];
      repeat match goal with
        | |- context [raised ?r] => destruct (raised r); cbn [yielded]
        end;
      repeat (apply Forall_app; split);
      repeat (apply Forall_cons); auto.
Qed.

(** Every code that [tokenize_markup] yields is made of digits, [;], [#],
    [@] and the letters [a] to [f]: it holds neither the [m] that ends an
    escape sequence nor a newline, so that [RE_ANSI] reads the sequence of
    the code back whole. *)
Theorem markup_codes_alphabet :
  forall names translate_hex text,
    Forall (fun t =>
              forall c,
                code t = Some c ->
                Forall (fun x => color_char x = true) c
                /\ ~ In "m"%char c /\ ~ In Re.NL c
                /\ Re.RE_ANSI (sequence t)
                   = Some ((Some c, None), List.length (sequence t)))
      (yielded (tokenize_markup names translate_hex text)).
Proof.
  intros names translate_hex text.
  assert (Hchars : forall c : str,
             Forall (fun x => color_char x = true) c ->
             ~ In "m"%char c /\ ~ In Re.NL c).
  { intros c H. rewrite Forall_forall in H.
    split; intros Hin; apply H in Hin;
      apply color_char_not_terminator in Hin; destruct Hin; congruence. }
  eapply Forall_impl;
    [|apply (tokenize_markup_loop_forall
               (fun t => forall c, code t = Some c ->
                                   Forall (fun x => color_char x = true) c));
      [discriminate|apply tags_loop_code_chars]].
  intros t Ht c Hc. specialize (Ht c Hc).
  destruct (Hchars c Ht) as [Hm Hn].
  split; [exact Ht|]. split; [exact Hm|]. split; [exact Hn|].
  unfold sequence. rewrite Hc.
  unfold Re.RE_ANSI. cbn [lit list_ascii_of_string app].
  rewrite !Ascii.eqb_refl. cbn [andb].
  rewrite lazy_until_found by assumption.
  repeat f_equal. cbn [List.length]. rewrite length_app. cbn [List.length].
  lia.
Qed.

(** *** The round trip of one tag and plain text *)

Lemma split_ws_from_word :
  forall s cur,
    Forall (fun x => Py.char_isspace x = false) s ->
    cur ++ s <> [] ->
    Py.split_ws_from s cur = [cur ++ s].
Proof.
  induction s as [|c s IH]; intros cur Hs Hne; simpl.
  - rewrite app_nil_r in *. destruct cur; [contradiction|reflexivity].
  - inversion Hs as [|c0 s0 Hc Hrest]; subst. rewrite Hc.
    rewrite IH; [rewrite <- app_assoc; reflexivity|exact Hrest|].
    destruct cur; discriminate.
Qed.

Lemma RE_ANSI_sequence :
  forall c rest,
    ~ In "m"%char c -> ~ In Re.NL c ->
    Re.RE_ANSI (Re.ESC :: lit "[" ++ c ++ lit "m" ++ rest)
    = Some ((Some c, None), List.length c + 3).
Proof.
  intros c rest Hm Hn. unfold Re.RE_ANSI.
  cbn [lit list_ascii_of_string app].
  rewrite !Ascii.eqb_refl. cbn [andb].
  rewrite lazy_until_found by assumption.
  replace (2 + List.length c + 1) with (List.length c + 3) by lia.
  reflexivity.
Qed.

Lemma finditer_from_skip :
  forall G (re : str -> option (G * nat)) (a s : str) pos,
    Re.finditer_from re (a ++ s) pos (List.length a)
    = Re.finditer_from re s (pos + List.length a) 0.
Proof.
  intros G re a. induction a as [|c a IH]; intros s pos.
  - simpl. rewrite Nat.add_0_r. reflexivity.
  - cbn [app List.length Re.finditer_from]. rewrite IH.
    f_equal. lia.
Qed.

(** Text that does not hold the escape character, after a sequence that
    ends with [m], does not end with the reset sequence. *)
Lemma endswith_reset_after_sequence :
  forall before text,
    text <> [] -> ~ In Re.ESC text ->
    Py.endswith ((before ++ lit "m") ++ text) reset = false.
Proof.
  intros before text Hne Hno.
  destruct (Py.endswith ((before ++ lit "m") ++ text) reset) eqn:H;
    [|reflexivity].
  exfalso. apply endswith_suffix in H. destruct H as [body H].
  apply (f_equal (@rev ascii)) in H.
  rewrite !rev_app_distr in H. simpl in H.
  assert (Hrev : ~ In Re.ESC (rev text))
    by (intros Hin; apply Hno; apply in_rev; exact Hin).
  destruct (rev text) as [|r0 [|r1 [|r2 [|r3 rr]]]] eqn:Hr; simpl in H.
  - apply (f_equal (@rev ascii)) in Hr. rewrite rev_involutive in Hr.
    contradiction.
  - injection H; intros; discriminate.
  - injection H; intros; discriminate.
  - injection H; intros; discriminate.
  - injection H as _ _ _ H3 _. apply Hrev. subst r3.
    right. right. right. left. reflexivity.
Qed.

Lemma to_name_content :
  forall names t1 t2,
    plain t1 = plain t2 -> code t1 = code t2 ->
    to_name names t1 = to_name names t2.
Proof.
  intros names t1 t2 Hp Hc. unfold to_name. rewrite Hp, Hc. reflexivity.
Qed.

(** The tokens of the sequence of a code, plain text, and the reset. *)
Lemma tokenize_ansi_sequence_text :
  forall c text : str,
    ~ In "m"%char c -> ~ In Re.NL c ->
    text <> [] -> ~ In Re.ESC text ->
    let len := List.length c + 3 in
    let stop := len + List.length text in
    tokenize_ansi ((Re.ESC :: lit "[" ++ c ++ lit "m") ++ text ++ reset)
    = [mkToken 0 len None (Some c) None;
       mkToken stop (stop + 4) (Some text) None None;
       mkToken stop (stop + 4) None (Some (lit "0")) None].
Proof.
  intros c text Hm Hn Hne Hno len stop.
  set (seq := Re.ESC :: lit "[" ++ c ++ lit "m").
  assert (Hseq : List.length seq = len).
  { subst seq len. cbn [lit list_ascii_of_string app List.length].
    rewrite length_app. cbn [List.length]. lia. }
  unfold tokenize_ansi.
  replace (Py.endswith (seq ++ text ++ reset) reset) with true
    by (symmetry; rewrite app_assoc; apply endswith_app).
  cbn [negb].
  assert (Hfind : Re.finditer Re.RE_ANSI (seq ++ text ++ reset)
                  = [(0, len, (Some c, None));
                     (stop, stop + 4, (Some (lit "0"), None))]).
  { unfold Re.finditer.
    assert (Hcons : seq ++ text ++ reset
                    = Re.ESC :: (lit "[" ++ c ++ lit "m") ++ text ++ reset).
    { subst seq. cbn [lit list_ascii_of_string app].
      rewrite <- app_assoc. reflexivity. }
    rewrite Hcons. cbn [Re.finditer_from]. rewrite <- Hcons.
    replace (seq ++ text ++ reset)
      with (Re.ESC :: lit "[" ++ c ++ lit "m" ++ text ++ reset)
      by (subst seq; cbn [lit list_ascii_of_string app];
          rewrite <- app_assoc; reflexivity).
    rewrite RE_ANSI_sequence by assumption.
    fold len. cbn [Nat.add]. f_equal.
    replace (len - 1) with (List.length (lit "[" ++ c ++ lit "m"))
      by (subst len; cbn [lit list_ascii_of_string app List.length];
          rewrite length_app; cbn [List.length]; lia).
    rewrite finditer_from_skip.
    replace (1 + List.length (lit "[" ++ c ++ lit "m")) with len
      by (subst len; cbn [lit list_ascii_of_string app List.length];
          rewrite length_app; cbn [List.length]; lia).
    rewrite (finditer_RE_ANSI_plain text len Hno). reflexivity. }
  rewrite Hfind.
  assert (Htotal : List.length (seq ++ text ++ reset) = stop + 4).
  { rewrite !length_app, Hseq. subst stop. simpl. lia. }
  assert (Hslice : Py.slice (seq ++ text ++ reset) len stop = text).
  { unfold Py.slice. rewrite skipn_app, Hseq, Nat.sub_diag.
    rewrite skipn_all2 by lia. cbn [app skipn].
    apply firstn_app_exact. subst stop. lia. }
  cbn [tokenize_ansi_loop]. rewrite Htotal, Hslice.
  change (0 <? 0) with false.
  replace (len <? stop) with true
    by (symmetry; apply Nat.ltb_lt; subst stop;
        destruct text; [contradiction|cbn [List.length]; lia]).
  rewrite Nat.ltb_irrefl.
  reflexivity.
Qed.

(** Markup made of one bracket group with one tag, and text after it that
    is not empty and holds neither a bracket nor an escape character: when
    the tag resolves to a token that [to_name] names, the round trip
    [ansi_to_markup(markup_to_ansi(m))] returns the group with that name,
    the text, and the group ["[/]"] of the reset. *)
Theorem single_tag_round_trip :
  forall names translate_hex c (body text : str) t (name : str),
    Re.tag_first c = true ->
    ~ In "]"%char (c :: body) ->
    Forall (fun x => Py.char_isspace x = false) (c :: body) ->
    text <> [] ->
    ~ In "["%char text ->
    ~ In Re.ESC text ->
    tag_token names translate_hex 0 (List.length (c :: body) + 2) (c :: body)
    = Ok t ->
    to_name names t = Ok name ->
    round_trip names translate_hex (lit "[" ++ (c :: body) ++ lit "]" ++ text)
    = Ok (lit "[" ++ name ++ lit "]" ++ text ++ lit "[/]").
Proof.
  intros names translate_hex c body text t name Hc Hclose Hword Hne Hopen
    Hesc Htag Hname.
  assert (Hnl : ~ In Re.NL (c :: body)).
  { intros Hin. rewrite Forall_forall in Hword. apply Hword in Hin.
    discriminate. }
  assert (Hsplit : Py.split_ws (c :: body) = [c :: body]).
  { unfold Py.split_ws. rewrite split_ws_from_word; [reflexivity|exact Hword|].
    discriminate. }
  destruct (tokenize_markup_group_text names translate_hex c body text
              Hc Hclose Hnl Hopen) as [_ Hansi].
  { rewrite Hsplit. cbn [tags_loop]. rewrite Htag. reflexivity. }
  unfold round_trip. rewrite Hansi. clear Hansi.
  rewrite Hsplit. cbn [tags_loop]. rewrite Htag.
  cbn [yield yielded map List.concat].
  destruct (tag_token_code_chars _ _ _ _ _ _ Htag)
    as [code0 [Hcode [Hplain Hall]]].
  assert (Hm : ~ In "m"%char code0 /\ ~ In Re.NL code0).
  { rewrite Forall_forall in Hall.
    split; intros Hin; apply Hall in Hin;
      apply color_char_not_terminator in Hin; destruct Hin; congruence. }
  destruct Hm as [Hm Hn].
  assert (Hseq : sequence t = Re.ESC :: lit "[" ++ code0 ++ lit "m")
    by (unfold sequence; rewrite Hcode; reflexivity).
  change ([t] ++ []) with [t]. cbn [map List.concat].
  rewrite Hseq, app_nil_r.
  assert (Hterm : terminate ((Re.ESC :: lit "[" ++ code0 ++ lit "m") ++ text)
                  = (Re.ESC :: lit "[" ++ code0 ++ lit "m") ++ text ++ reset).
  { unfold terminate.
    replace (Re.ESC :: lit "[" ++ code0 ++ lit "m")
      with ((Re.ESC :: lit "[" ++ code0) ++ lit "m")
      by reflexivity.
    rewrite endswith_reset_after_sequence by assumption.
    cbn [negb]. rewrite <- !app_assoc. reflexivity. }
  rewrite Hterm. cbn [bind].
  unfold ansi_to_markup.
  rewrite tokenize_ansi_sequence_text by assumption.
  cbn [ansi_to_markup_loop code plain].
  match goal with
  | |- context [to_name names ?x] =>
      assert (Hback : to_name names x = Ok name)
        by (rewrite <- Hname; apply to_name_content; cbn [plain code];
            [symmetry; exact Hplain|symmetry; exact Hcode]);
      rewrite Hback
  end.
  assert (Hp : forall s e,
             to_name names (mkToken s e (Some text) None None) = Ok text)
    by reflexivity.
  assert (Hr : forall s e,
             to_name names (mkToken s e None (Some (lit "0")) None)
             = Ok (lit "/"))
    by reflexivity.
  cbn [bind]. rewrite Hp. cbn [bind]. rewrite Hr.
  cbn [bind app Py.join].
  rewrite <- !app_assoc. reflexivity.
Qed.

(** [single_tag_round_trip] at the markup ["[/dim]off"], whose tag comes
    back as [/bold]. *)
Lemma single_tag_round_trip_witness :
  round_trip docstring_names spec_translate_hex (lit "[/dim]off")
  = Ok (lit "[/bold]off[/]").
Proof.
  apply (single_tag_round_trip docstring_names spec_translate_hex
           "/"%char (lit "dim") (lit "off")
           (mkToken 0 6 None (Some (lit "22")) (Some CLEAR)) (lit "/bold"));
    try reflexivity; try discriminate;
    try (vm_compute; intros H;
         repeat (destruct H as [H|H]; [discriminate|]); exact H).
  vm_compute. repeat constructor.
Defined.

(** *** Hex colors *)

Lemma not_a_style_name_hash :
  forall rest,
    Py.list_index NAMES ("#"%char :: rest) = None
    /\ dict_get UNSET_MAP ("#"%char :: rest) = None.
Proof.
  intros rest.
  split; cbn [NAMES UNSET_MAP map lit list_ascii_of_string fst snd
              Py.list_index dict_get];
    repeat rewrite str_eqb_head by discriminate;
    reflexivity.
Qed.

Lemma dict_key_of_mem :
  forall {V} (p : V -> bool) (d : list (str * V)) key,
    dict_key_of p d = Some key -> dict_mem d key = true.
Proof.
  intros V p d key. unfold dict_mem.
  induction d as [|[k v] d IH]; intros H; simpl in H.
  - discriminate.
  - simpl. destruct (Py.str_eqb k key) eqn:Hk; [reflexivity|].
    destruct (p v).
    + injection H as ->.
      assert (Hrefl : Py.str_eqb key key = true)
        by (apply opt_str_eqb_eq with (a := Some key) (b := Some key);
            reflexivity).
      congruence.
    + exact (IH H).
Qed.

(** A hex color written as a tag becomes the RGB code [38;2;r;g;b] of the
    components that [translate_hex] gives for it, and [to_name] gives that
    code back in decimal, as [r;g;b], or as the name of the color with the
    index [r] when the table has one: never as the hex color that was
    written. *)
Theorem hex_color_round_trip :
  forall names translate_hex s e (rest : str) r g b,
    let tag := "#"%char :: rest in
    let rgb :=
      Py.str_of_nat r ++ lit ";" ++ Py.str_of_nat g ++ lit ";"
        ++ Py.str_of_nat b in
    let fore := mkToken s e None (Some (lit "38;2;" ++ rgb)) (Some COLOR) in
    Forall (fun c => color_char c = true) rest ->
    dict_mem names tag = false ->
    translate_hex tag = Some (r, g, b) ->
    tag_token names translate_hex s e tag = Ok fore
    /\ to_name names fore
       = Ok (match name_of_index names r with
             | Some name => name
             | None => rgb
             end)
    /\ (forall name, to_name names fore = Ok name -> name <> tag).
Proof.
  intros names translate_hex s e rest r g b tag rgb fore Hrest Hmem Hhex.
  assert (Hnamed : _handle_named_color names translate_hex tag = Ok None).
  { unfold _handle_named_color. subst tag.
    rewrite lstrip_other by discriminate. rewrite Hmem. reflexivity. }
  assert (Hfilter : forallb
                      (fun char => Py.char_isdigit char
                                   || Py.char_in char (lit "#;@abcdef"))
                      tag = true).
  { apply forallb_forall. intros x [<-|Hx]; [reflexivity|].
    rewrite Forall_forall in Hrest. exact (Hrest x Hx). }
  assert (H1 : Py.startswith tag (lit "@") = false)
    by (subst tag; destruct rest; reflexivity).
  assert (H2 : Py.startswith tag (lit "#") = true)
    by (subst tag; destruct rest; reflexivity).
  assert (Hcolor : _handle_color translate_hex tag
                   = Ok (Some (lit "38;2;" ++ rgb, false))).
  { unfold _handle_color. rewrite Hfilter, H1. cbv beta iota zeta.
    cbn [negb]. rewrite H2, andb_false_r, Hhex. reflexivity. }
  assert (Hname : to_name names fore
                  = Ok (match name_of_index names r with
                        | Some name => name
                        | None => rgb
                        end)).
  { exact (to_name_color names s e (Some COLOR) (lit "38") (lit "2") r
             (lit ";" ++ Py.str_of_nat g ++ lit ";" ++ Py.str_of_nat b)
             ltac:(vm_compute; intuition discriminate)
             ltac:(vm_compute; intuition discriminate)
             (or_intror (ex_intro _ _ eq_refl))). }
  split; [|split].
  - unfold tag_token.
    destruct (not_a_style_name_hash rest) as [Hs Hu]. fold tag in Hs, Hu.
    rewrite Hs, Hu, Hnamed. cbn [bind]. rewrite Hcolor. reflexivity.
  - exact Hname.
  - intros name Hn. rewrite Hname in Hn. injection Hn as <-.
    destruct (name_of_index names r) as [key|] eqn:Hkey.
    + intros ->. unfold name_of_index in Hkey.
      apply dict_key_of_mem in Hkey. congruence.
    + subst rgb tag. destruct (str_of_nat_cons r) as [c [more [Hr [Hc _]]]].
      rewrite Hr. intros Heq. injection Heq as Heq _. subst c.
      discriminate Hc.
Qed.

(** [hex_color_round_trip] at the color [#ff8000]. *)
Lemma hex_color_round_trip_witness :
  tag_token docstring_names spec_translate_hex 0 9 (lit "#ff8000")
  = Ok (mkToken 0 9 None (Some (lit "38;2;255;128;0")) (Some COLOR))
  /\ to_name docstring_names
       (mkToken 0 9 None (Some (lit "38;2;255;128;0")) (Some COLOR))
     = Ok (lit "255;128;0")
  /\ (forall name,
        to_name docstring_names
          (mkToken 0 9 None (Some (lit "38;2;255;128;0")) (Some COLOR))
        = Ok name ->
        name <> lit "#ff8000").
Proof.
  apply (hex_color_round_trip docstring_names spec_translate_hex 0 9
           (lit "ff8000") 255 128 0).
  - vm_compute. repeat constructor.
  - reflexivity.
  - reflexivity.
Defined.
